(** * Pattern extraction and aggregation of src/backend/server.js

    Shallow embedding of [extractPaywallPatterns], [extractPatternsFromCSS],
    [extractComponentStyles], [extractSelectorStyles] and
    [mergePaywallPatterns] (with its inner [mergeArray]), together with the
    reset performed by [app.delete("/api/paywall-patterns")].

    CSS text is a list of 8-bit characters (Latin-1 code points).  The
    regular expressions of the source are written as terms of a small
    backtracking matcher that follows the ECMAScript matching semantics
    (ordered alternation, greedy and lazy quantifiers, the empty-iteration
    check of quantifiers, [i] flag by ASCII/Latin-1 case folding).  JS
    numbers are modelled as rationals [Q]. *)

From Stdlib Require Import List Ascii String Bool Arith Lia.
From Stdlib Require Import QArith Qabs Qround Sorting.Sorted Sorting.Permutation.
From stdpp Require Import base list gmap strings.
Import ListNotations.

Open Scope list_scope.

Abbreviation chars := (list ascii).

(** ** Characters *)

Definition code (c : ascii) : nat := nat_of_ascii c.

Definition is_digit (c : ascii) : bool := (48 <=? code c) && (code c <=? 57).

Definition is_hex (c : ascii) : bool :=
  is_digit c || ((65 <=? code c) && (code c <=? 70))
             || ((97 <=? code c) && (code c <=? 102)).

(** [\w] *)
Definition is_word (c : ascii) : bool :=
  is_digit c || ((65 <=? code c) && (code c <=? 90))
             || ((97 <=? code c) && (code c <=? 122)) || (code c =? 95).

(** [\s] and the characters removed by [String.prototype.trim], restricted
    to Latin-1: TAB, LF, VT, FF, CR, SPACE and NO-BREAK SPACE. *)
Definition is_space (c : ascii) : bool :=
  existsb (Nat.eqb (code c)) [9; 10; 11; 12; 13; 32; 160].

(** Line terminators, the characters [.] does not match. *)
Definition is_line_term (c : ascii) : bool := (code c =? 10) || (code c =? 13).

(** [Canonicalize] of the [i] flag (non-unicode mode) on Latin-1: lower-case
    letters map to upper case; no character above 127 maps below 128. *)
Definition canon (c : ascii) : ascii :=
  let n := code c in
  if ((97 <=? n) && (n <=? 122)) || ((224 <=? n) && (n <=? 254) && negb (n =? 247))
  then ascii_of_nat (n - 32) else c.

Definition char_eq (ic : bool) (a b : ascii) : bool :=
  if ic then Ascii.eqb (canon a) (canon b) else Ascii.eqb a b.

(** ** A backtracking regular-expression matcher *)

Inductive re : Type :=
| REps
| RChar (a : ascii)                (** a literal character *)
| RClass (p : ascii -> bool)       (** a character class *)
| RSeq (r1 r2 : re)
| RAlt (r1 r2 : re)                (** [r1|r2], left alternative first *)
| RStar (r : re)                   (** [r*], greedy *)
| RLazyStar (r : re)               (** [r*?], lazy *)
| RGroup (n : nat) (r : re).       (** capturing group number [n] *)

(** A capture records the remaining input where the group started and
    where it ended. *)
Definition caps := list (nat * (chars * chars)).

Definition mresult := option (chars * caps).

(** [rmatch ic r rest c k]: match [r] at the input [rest] with captures [c]
    and continuation [k].  A quantifier iteration that consumes nothing
    fails, as in the RepeatMatcher of the ECMAScript specification; the
    iteration count of a quantifier is bounded by the remaining length. *)
Fixpoint rmatch (ic : bool) (r : re) (rest : chars) (c : caps)
    (k : chars -> caps -> mresult) {struct r} : mresult :=
  match r with
  | REps => k rest c
  | RChar a =>
      match rest with
      | x :: rest' => if char_eq ic a x then k rest' c else None
      | [] => None
      end
  | RClass p =>
      match rest with
      | x :: rest' => if p x then k rest' c else None
      | [] => None
      end
  | RSeq r1 r2 => rmatch ic r1 rest c (fun rest' c' => rmatch ic r2 rest' c' k)
  | RAlt r1 r2 =>
      match rmatch ic r1 rest c k with
      | Some x => Some x
      | None => rmatch ic r2 rest c k
      end
  | RStar r1 =>
      (fix loop (n : nat) (rest : chars) (c : caps) {struct n} : mresult :=
         match n with
         | O => k rest c
         | S n' =>
             match rmatch ic r1 rest c
                     (fun rest' c' =>
                        if List.length rest' <? List.length rest
                        then loop n' rest' c' else None) with
             | Some x => Some x
             | None => k rest c
             end
         end) (List.length rest) rest c
  | RLazyStar r1 =>
      (fix loop (n : nat) (rest : chars) (c : caps) {struct n} : mresult :=
         match k rest c with
         | Some x => Some x
         | None =>
             match n with
             | O => None
             | S n' =>
                 rmatch ic r1 rest c
                   (fun rest' c' =>
                      if List.length rest' <? List.length rest
                      then loop n' rest' c' else None)
             end
         end) (List.length rest) rest c
  | RGroup n r1 =>
      rmatch ic r1 rest c (fun rest' c' => k rest' ((n, (rest, rest')) :: c'))
  end.

(** Matching at one position, with the identity continuation. *)
Definition exec_at (ic : bool) (r : re) (rest : chars) : mresult :=
  rmatch ic r rest [] (fun rest' c => Some (rest', c)).

Definition substring_between (start stop : chars) : chars :=
  firstn (List.length start - List.length stop) start.

(** A match: the matched text ([match[0]]) and the captures. *)
Record rmatch_result := { m_all : chars; m_caps : caps }.

Definition group (m : rmatch_result) (n : nat) : option chars :=
  match find (fun e => Nat.eqb (fst e) n) (m_caps m) with
  | Some (_, (st, en)) => Some (substring_between st en)
  | None => None
  end.

(** [match[n]] for a group that always participates in a match. *)
Definition grp (m : rmatch_result) (n : nat) : chars :=
  match group m n with Some s => s | None => [] end.

(** The successive matches of a global regular expression, as
    [String.prototype.matchAll] (and [match] with the [g] flag) yield them:
    search forward from [lastIndex], continue at the end of the match, and
    step one character past an empty match. *)
Fixpoint scan (ic : bool) (r : re) (n : nat) (rest : chars) : list rmatch_result :=
  match n with
  | O => []
  | S n' =>
      match exec_at ic r rest with
      | Some (rest', c) =>
          {| m_all := substring_between rest rest'; m_caps := c |} ::
          (if List.length rest' <? List.length rest then scan ic r n' rest'
           else match rest with [] => [] | _ :: t => scan ic r n' t end)
      | None => match rest with [] => [] | _ :: t => scan ic r n' t end
      end
  end.

Definition matchAll (ic : bool) (r : re) (s : chars) : list rmatch_result :=
  scan ic r (S (List.length s)) s.

(** [RegExp.prototype.exec] with [lastIndex = 0]: the first match. *)
Definition exec_first (ic : bool) (r : re) (s : chars) : option rmatch_result :=
  head (matchAll ic r s).

(** ** Building blocks of the source's patterns *)

Fixpoint lit (s : chars) : re :=
  match s with
  | [] => REps
  | a :: s' => RSeq (RChar a) (lit s')
  end.

Definition slit (s : string) : re := lit (list_ascii_of_string s).

Fixpoint seqs (rs : list re) : re :=
  match rs with
  | [] => REps
  | [r] => r
  | r :: rs' => RSeq r (seqs rs')
  end.

Fixpoint alts (rs : list re) : re :=
  match rs with
  | [] => RClass (fun _ => false)
  | [r] => r
  | r :: rs' => RAlt r (alts rs')
  end.

Definition plus (r : re) : re := RSeq r (RStar r).
Definition opt (r : re) : re := RAlt r REps.
Definition not_char (a : ascii) : re := RClass (fun x => negb (Ascii.eqb x a)).

Definition d_ : re := RClass is_digit.
Definition s_ : re := RClass is_space.
Definition w_ : re := RClass is_word.
Definition any_ : re := RClass (fun x => negb (is_line_term x)).

(** [\d+(?:\.\d+)?] *)
Definition number_re : re := seqs [plus d_; opt (seqs [RChar "."; plus d_])].

Definition units (us : list string) : re := opt (alts (map slit us)).


(** ** JavaScript string and number helpers *)

Fixpoint drop_spaces (s : chars) : chars :=
  match s with
  | x :: s' => if is_space x then drop_spaces s' else s
  | [] => []
  end.

(** [String.prototype.trim] *)
Definition trim (s : chars) : chars := rev (drop_spaces (rev (drop_spaces s))).

(** [String.prototype.split] with a one-character separator. *)
Fixpoint split_on (sep : ascii) (s : chars) : list chars :=
  match s with
  | [] => [[]]
  | x :: s' =>
      if Ascii.eqb x sep then [] :: split_on sep s'
      else match split_on sep s' with
           | seg :: segs => (x :: seg) :: segs
           | [] => [[x]]
           end
  end.

(** [replace] of the quote characters (code 39 and 34) by nothing. *)
Definition strip_quotes (s : chars) : chars :=
  filter (fun x => negb ((code x =? 39) || (code x =? 34))) s.

Fixpoint prefix_of (p s : chars) : bool :=
  match p, s with
  | [], _ => true
  | a :: p', b :: s' => Ascii.eqb a b && prefix_of p' s'
  | _ :: _, [] => false
  end.

(** [s.includes(needle)] *)
Fixpoint includes (s needle : chars) : bool :=
  prefix_of needle s || match s with [] => false | _ :: s' => includes s' needle end.

Definition digit_val (c : ascii) : Z := Z.of_nat (code c - 48).

Fixpoint digits_Z (acc : Z) (s : chars) : option Z :=
  match s with
  | [] => Some acc
  | x :: s' => if is_digit x then digits_Z (10 * acc + digit_val x)%Z s' else None
  end.

(** Unsigned decimal literal: [digits], [digits.], [digits.digits] or
    [.digits]. *)
Definition unsigned_decimal (s : chars) : option Q :=
  match split_on "." s with
  | [ip] => match ip with
            | [] => None
            | _ => option_map inject_Z (digits_Z 0 ip)
            end
  | [ip; fp] =>
      match ip, fp with
      | [], [] => None
      | _, _ =>
          match digits_Z 0 ip, digits_Z 0 fp with
          | Some i, Some f =>
              Some (Qmake (i * 10 ^ Z.of_nat (List.length fp) + f)
                          (Pos.of_nat (10 ^ List.length fp)))
          | _, _ => None
          end
      end
  | _ => None
  end.

(** [Number(s)] on strings, [None] standing for [NaN].  Surrounding white
    space is ignored and the empty string is 0.  The grammar covers signed
    decimal literals; every string this program passes to [Number] is a
    capture of [-?\d+(?:\.\d+)?], [\d+] or a font-weight keyword, so the
    exponent, hexadecimal and [Infinity] forms never occur. *)
Definition js_number (s : chars) : option Q :=
  match trim s with
  | [] => Some 0%Q
  | "-"%char :: t => option_map (fun q => Qred (- q)) (unsigned_decimal t)
  | "+"%char :: t => option_map Qred (unsigned_decimal t)
  | t => option_map Qred (unsigned_decimal t)
  end.

Definition qltb (a b : Q) : bool := negb (Qle_bool b a).

(** [arr.sort((a, b) => a - b)]: a stable sort on numbers (insertion sort). *)
Fixpoint qinsert (x : Q) (l : list Q) : list Q :=
  match l with
  | [] => [x]
  | y :: l' => if Qle_bool y x then y :: qinsert x l' else x :: l
  end.

Definition qsort (l : list Q) : list Q := fold_left (fun acc x => qinsert x acc) l [].

(** ** Attribute categories *)

Inductive numcat : Type :=
| fontSizes | fontWeights | lineHeights | letterSpacing | spacing
| borderRadius | opacities | zIndex | gaps | widths | heights | breakpoints.

Inductive strcat : Type :=
| colors | fonts | shadows | borders | transitions | transforms | gradients
| displayTypes | flexProperties | gridProperties | positions
| textTransforms | textDecorations | animations.

#[global] Instance numcat_eq_dec : EqDecision numcat.
Proof. solve_decision. Defined.
#[global] Instance strcat_eq_dec : EqDecision strcat.
Proof. solve_decision. Defined.

(** *** Working state of [extractPaywallPatterns]: one [Set] of strings per
    category (a duplicate-free list in insertion order), the
    [commonStyles.cssVariables] object once created, and [componentStyles]. *)
Record patterns := {
  wp_num : numcat -> list string;
  wp_str : strcat -> list string;
  wp_cssvars : option (gmap string string);
  wp_comp : gmap string (gmap string (list string))
}.

Definition empty_patterns : patterns :=
  {| wp_num := fun _ => []; wp_str := fun _ => []; wp_cssvars := None; wp_comp := ∅ |}.

(** [set.add(x)] *)
Definition set_add (x : string) (s : list string) : list string :=
  if existsb (String.eqb x) s then s else s ++ [x].

Definition add_num (c : numcat) (x : chars) (p : patterns) : patterns :=
  {| wp_num := fun c' => if decide (c' = c) then set_add (string_of_list_ascii x) (wp_num p c')
                         else wp_num p c';
     wp_str := wp_str p; wp_cssvars := wp_cssvars p; wp_comp := wp_comp p |}.

Definition add_str (c : strcat) (x : chars) (p : patterns) : patterns :=
  {| wp_num := wp_num p;
     wp_str := fun c' => if decide (c' = c) then set_add (string_of_list_ascii x) (wp_str p c')
                         else wp_str p c';
     wp_cssvars := wp_cssvars p; wp_comp := wp_comp p |}.

Definition set_cssvar (name value : chars) (p : patterns) : patterns :=
  {| wp_num := wp_num p; wp_str := wp_str p;
     wp_cssvars := Some (<[string_of_list_ascii name := string_of_list_ascii value]>
                           (default ∅ (wp_cssvars p)));
     wp_comp := wp_comp p |}.

(** [for (const match of ms) body(match)] *)
Definition each {A} (ms : list A) (body : A -> patterns -> patterns) (p : patterns) : patterns :=
  fold_left (fun p m => body m p) ms p.

(** ** The rules of [extractPatternsFromCSS] *)

Definition grp1 (m : rmatch_result) : chars := grp m 1.
Definition rest_until_semicolon : re := plus (not_char ";").
Definition declaration (prop : re) (value : re) : re :=
  seqs [prop; RChar ":"; RStar s_; value].

(** [#[0-9a-fA-F]{3,8}] *)
Definition hex_color_re : re :=
  let h := RClass is_hex in
  seqs [RChar "#"; h; h; h;
        opt (RSeq h (opt (RSeq h (opt (RSeq h (opt (RSeq h (opt h))))))))].

Definition fn_call_re (name : string) : re :=
  seqs [slit name; RChar "("; plus (not_char ")"); RChar ")"].

(** [/(#[0-9a-fA-F]{3,8}|rgb\([^)]+\)|rgba\([^)]+\)|hsl\([^)]+\)|hsla\([^)]+\)|transparent|currentColor)/g] *)
Definition colorRegex : re :=
  RGroup 1 (alts [hex_color_re; fn_call_re "rgb"; fn_call_re "rgba"; fn_call_re "hsl";
                  fn_call_re "hsla"; slit "transparent"; slit "currentColor"]).

(** [/font-family:\s*([^;]+)/gi] *)
Definition fontRegex : re := declaration (slit "font-family") (RGroup 1 rest_until_semicolon).

(** [/font-size:\s*(\d+(?:\.\d+)?)(?:px|rem|em)?/gi] *)
Definition fontSizeRegex : re :=
  RSeq (declaration (slit "font-size") (RGroup 1 number_re)) (units ["px"; "rem"; "em"]).

(** [/font-weight:\s*(\d+|normal|bold|bolder|lighter)/gi] *)
Definition fontWeightRegex : re :=
  declaration (slit "font-weight")
    (RGroup 1 (alts [plus d_; slit "normal"; slit "bold"; slit "bolder"; slit "lighter"])).

(** [/line-height:\s*(\d+(?:\.\d+)?)(?:px|rem|em|%)?/gi] *)
Definition lineHeightRegex : re :=
  RSeq (declaration (slit "line-height") (RGroup 1 number_re)) (units ["px"; "rem"; "em"; "%"]).

(** [/letter-spacing:\s*(-?\d+(?:\.\d+)?)(?:px|em)?/gi] *)
Definition letterSpacingRegex : re :=
  RSeq (declaration (slit "letter-spacing") (RGroup 1 (RSeq (opt (RChar "-")) number_re)))
       (units ["px"; "em"]).

(** [/(?:padding|margin)(?:-top|-right|-bottom|-left)?:\s*(\d+(?:\.\d+)?)(?:px|rem|em|%)?/gi] *)
Definition spacingRegex : re :=
  RSeq (declaration (RSeq (alts [slit "padding"; slit "margin"])
                          (units ["-top"; "-right"; "-bottom"; "-left"]))
                    (RGroup 1 number_re))
       (units ["px"; "rem"; "em"; "%"]).

(** [/border-radius:\s*(\d+(?:\.\d+)?)(?:px|rem|em|%)?/gi] *)
Definition borderRadiusRegex : re :=
  RSeq (declaration (slit "border-radius") (RGroup 1 number_re)) (units ["px"; "rem"; "em"; "%"]).

(** [/box-shadow:\s*([^;]+)/gi] *)
Definition shadowRegex : re := declaration (slit "box-shadow") (RGroup 1 rest_until_semicolon).

(** [/border(?:-top|-right|-bottom|-left)?(?:-width)?:\s*(\d+(?:\.\d+)?(?:px|rem|em)?)\s+(\w+)\s+([^;]+)/gi] *)
Definition borderRegex : re :=
  declaration (seqs [slit "border"; units ["-top"; "-right"; "-bottom"; "-left"]; units ["-width"]])
    (seqs [RGroup 1 (RSeq number_re (units ["px"; "rem"; "em"]));
           plus s_; RGroup 2 (plus w_); plus s_; RGroup 3 rest_until_semicolon]).

(** [/transition:\s*([^;]+)/gi] *)
Definition transitionRegex : re := declaration (slit "transition") (RGroup 1 rest_until_semicolon).

(** [/transform:\s*([^;]+)/gi] *)
Definition transformRegex : re := declaration (slit "transform") (RGroup 1 rest_until_semicolon).

(** [/opacity:\s*(\d+(?:\.\d+)?)/gi] *)
Definition opacityRegex : re := declaration (slit "opacity") (RGroup 1 number_re).

(** [/(?:background|background-image):\s*(linear-gradient|radial-gradient|conic-gradient)\([^)]+\)/gi] *)
Definition gradientRegex : re :=
  declaration (alts [slit "background"; slit "background-image"])
    (seqs [RGroup 1 (alts [slit "linear-gradient"; slit "radial-gradient"; slit "conic-gradient"]);
           RChar "("; plus (not_char ")"); RChar ")"]).

(** [/z-index:\s*(-?\d+)/gi] *)
Definition zIndexRegex : re := declaration (slit "z-index") (RGroup 1 (RSeq (opt (RChar "-")) (plus d_))).

(** [/gap:\s*(\d+(?:\.\d+)?)(?:px|rem|em)?/gi] *)
Definition gapRegex : re :=
  RSeq (declaration (slit "gap") (RGroup 1 number_re)) (units ["px"; "rem"; "em"]).

(** [/width:\s*(\d+(?:\.\d+)?)(?:px|rem|em|%)?/gi] *)
Definition widthRegex : re :=
  RSeq (declaration (slit "width") (RGroup 1 number_re)) (units ["px"; "rem"; "em"; "%"]).

(** [/height:\s*(\d+(?:\.\d+)?)(?:px|rem|em|%)?/gi] *)
Definition heightRegex : re :=
  RSeq (declaration (slit "height") (RGroup 1 number_re)) (units ["px"; "rem"; "em"; "%"]).

(** [/display:\s*(\w+)/gi] *)
Definition displayRegex : re := declaration (slit "display") (RGroup 1 (plus w_)).

(** [/(?:flex-direction|justify-content|align-items|align-self|flex-wrap|flex-grow|flex-shrink):\s*([^;]+)/gi] *)
Definition flexRegex : re :=
  declaration (alts (map slit ["flex-direction"; "justify-content"; "align-items"; "align-self";
                               "flex-wrap"; "flex-grow"; "flex-shrink"]))
              (RGroup 1 rest_until_semicolon).

(** [/(?:grid-template-columns|grid-template-rows|grid-column|grid-row|grid-area):\s*([^;]+)/gi] *)
Definition gridRegex : re :=
  declaration (alts (map slit ["grid-template-columns"; "grid-template-rows"; "grid-column";
                               "grid-row"; "grid-area"]))
              (RGroup 1 rest_until_semicolon).

(** [/position:\s*(\w+)/gi] *)
Definition positionRegex : re := declaration (slit "position") (RGroup 1 (plus w_)).

(** [/text-transform:\s*(\w+)/gi] *)
Definition textTransformRegex : re := declaration (slit "text-transform") (RGroup 1 (plus w_)).

(** [/text-decoration:\s*([^;]+)/gi] *)
Definition textDecorationRegex : re :=
  declaration (slit "text-decoration") (RGroup 1 rest_until_semicolon).

(** [/@media\s+(?:\([^)]+\)|screen|print).*?(?:min-width|max-width):\s*(\d+)(?:px|em|rem)/gi] *)
Definition mediaQueryRegex : re :=
  seqs [slit "@media"; plus s_;
        alts [seqs [RChar "("; plus (not_char ")"); RChar ")"]; slit "screen"; slit "print"];
        RLazyStar any_;
        declaration (alts [slit "min-width"; slit "max-width"]) (RGroup 1 (plus d_));
        alts [slit "px"; slit "em"; slit "rem"]].

(** [/(?:animation|@keyframes)\s+(\w+)/gi] *)
Definition animationRegex : re :=
  seqs [alts [slit "animation"; slit "@keyframes"]; plus s_; RGroup 1 (plus w_)].

(** [/--[\w-]+:\s*([^;]+)/gi] *)
Definition cssVarRegex : re :=
  declaration (RSeq (slit "--") (plus (RClass (fun x => is_word x || (code x =? 45)))))
              (RGroup 1 rest_until_semicolon).

Definition add_numeric_captures (c : numcat) (r : re) (css : chars) : patterns -> patterns :=
  each (matchAll true r css) (fun m => add_num c (grp1 m)).

Definition add_trimmed_captures (c : strcat) (r : re) (css : chars) : patterns -> patterns :=
  each (matchAll true r css) (fun m => add_str c (trim (grp1 m))).

Definition s2c (s : string) : chars := list_ascii_of_string s.

(** The font-weight step: [normal] becomes 400, [bold] becomes 700, any
    other capture is added when [!isNaN(weight)]. *)
Definition add_font_weight (m : rmatch_result) (p : patterns) : patterns :=
  let weight := grp1 m in
  if decide (weight = s2c "normal") then add_num fontWeights (s2c "400") p
  else if decide (weight = s2c "bold") then add_num fontWeights (s2c "700") p
  else match js_number weight with
       | Some _ => add_num fontWeights weight p
       | None => p
       end.

Definition add_fonts (m : rmatch_result) (p : patterns) : patterns :=
  fold_left (fun p f => add_str fonts f p)
            (map (fun f => strip_quotes (trim f)) (split_on "," (grp1 m))) p.

Definition add_border (m : rmatch_result) : patterns -> patterns :=
  add_str borders (grp m 1 ++ s2c "px " ++ grp m 2 ++ s2c " " ++ trim (grp m 3)).

Definition add_css_var (m : rmatch_result) : patterns -> patterns :=
  let varName := trim (hd [] (split_on ":" (m_all m))) in
  let varValue := trim (grp1 m) in
  set_cssvar varName varValue.

(** [extractPatternsFromCSS(cssText, patterns)]: the rules run one after
    the other over the whole text, in the order of the source. *)
Definition extractPatternsFromCSS (css : chars) (p : patterns) : patterns :=
  let p := each (matchAll false colorRegex css) (fun m => add_str colors (trim (m_all m))) p in
  let p := each (matchAll true fontRegex css) add_fonts p in
  let p := add_numeric_captures fontSizes fontSizeRegex css p in
  let p := each (matchAll true fontWeightRegex css) add_font_weight p in
  let p := add_numeric_captures lineHeights lineHeightRegex css p in
  let p := add_numeric_captures letterSpacing letterSpacingRegex css p in
  let p := add_numeric_captures spacing spacingRegex css p in
  let p := add_numeric_captures borderRadius borderRadiusRegex css p in
  let p := add_trimmed_captures shadows shadowRegex css p in
  let p := each (matchAll true borderRegex css) add_border p in
  let p := add_trimmed_captures transitions transitionRegex css p in
  let p := add_trimmed_captures transforms transformRegex css p in
  let p := add_numeric_captures opacities opacityRegex css p in
  let p := each (matchAll true gradientRegex css) (fun m => add_str gradients (trim (m_all m))) p in
  let p := add_numeric_captures zIndex zIndexRegex css p in
  let p := add_numeric_captures gaps gapRegex css p in
  let p := each (matchAll true widthRegex css)
             (fun m => if negb (includes (grp1 m) (s2c "%")) && negb (includes (grp1 m) (s2c "vw"))
                       then add_num widths (grp1 m) else fun p => p) p in
  let p := each (matchAll true heightRegex css)
             (fun m => if negb (includes (grp1 m) (s2c "%")) && negb (includes (grp1 m) (s2c "vh"))
                       then add_num heights (grp1 m) else fun p => p) p in
  let p := each (matchAll true displayRegex css) (fun m => add_str displayTypes (grp1 m)) p in
  let p := each (matchAll true flexRegex css) (fun m => add_str flexProperties (trim (m_all m))) p in
  let p := each (matchAll true gridRegex css) (fun m => add_str gridProperties (trim (m_all m))) p in
  let p := each (matchAll true positionRegex css) (fun m => add_str positions (grp1 m)) p in
  let p := each (matchAll true textTransformRegex css) (fun m => add_str textTransforms (grp1 m)) p in
  let p := add_trimmed_captures textDecorations textDecorationRegex css p in
  let p := add_numeric_captures breakpoints mediaQueryRegex css p in
  let p := each (matchAll true animationRegex css) (fun m => add_str animations (grp1 m)) p in
  each (matchAll true cssVarRegex css) add_css_var p.

(** ** Documents

    A document after parsing: its elements in document order, each with its
    tag name, its [class] and [style] attributes, and its inner HTML (the
    text of a [<style>] element). *)
Record element := {
  tag : string;
  class_attr : option string;
  style_attr : option string;
  inner : string
}.

Definition document := list element.

(** [$("style")] *)
Definition style_elements (d : document) : list element :=
  filter (fun e => String.eqb (tag e) "style") d.

(** [$("[style]")] with [$(elem).attr("style") || ""] *)
Definition inline_styles (d : document) : list string :=
  flat_map (fun e => match style_attr e with Some s => [s] | None => [] end) d.

(** The [class] attribute cut at every white-space character ([\s] of
    the regular expression [(?:^|\s)n(?:$|\s)] with which css-select tests
    a class selector). *)
Fixpoint split_ws (s : chars) : list chars :=
  match s with
  | [] => [[]]
  | x :: s' =>
      if is_space x then [] :: split_ws s'
      else match split_ws s' with
           | seg :: segs => (x :: seg) :: segs
           | [] => [[x]]
           end
  end.

(** Class selector [.n]: [n] is one of the white-space separated classes. *)
Definition has_class (e : element) (n : string) : bool :=
  match class_attr e with
  | Some s => existsb (fun t => String.eqb (string_of_list_ascii t) n)
                      (split_ws (list_ascii_of_string s))
  | None => false
  end.

(** Attribute selector [[class*='n']]. *)
Definition class_contains (e : element) (n : string) : bool :=
  match class_attr e with
  | Some s => includes (s2c s) (s2c n)
  | None => false
  end.

Definition count_matching (d : document) (sel : element -> bool) : nat :=
  List.length (filter sel d).

Record layout := { buttons : nat; cards : nat; containers : nat; inputs : nat; modals : nat }.

(** The five selector groups counted for [layouts]. *)
Definition button_sel (e : element) : bool :=
  String.eqb (tag e) "button" || has_class e "button" || class_contains e "btn".
Definition card_sel (e : element) : bool := has_class e "card" || class_contains e "card".
Definition container_sel (e : element) : bool :=
  has_class e "container" || class_contains e "container".
Definition input_sel (e : element) : bool :=
  String.eqb (tag e) "input" || has_class e "input" || class_contains e "input".
Definition modal_sel (e : element) : bool :=
  has_class e "modal" || class_contains e "modal" || class_contains e "dialog".

Definition extract_layouts (d : document) : layout :=
  {| buttons := count_matching d button_sel;
     cards := count_matching d card_sel;
     containers := count_matching d container_sel;
     inputs := count_matching d input_sel;
     modals := count_matching d modal_sel |}.

(** ** [extractSelectorStyles($, selector, properties)] *)

(** [$("style").html() || ""]: the inner HTML of the first [<style>]
    element of the document. *)
Definition first_style_text (d : document) : string :=
  match style_elements d with
  | e :: _ => inner e
  | [] => ""
  end.

(** [new RegExp(`(${escaped selector})[^{]*\{([^}]+)\}`, "gi")]: the
    escaping makes the selector text a literal. *)
Definition selectorRegex (selector : string) : re :=
  seqs [RGroup 1 (slit selector); RStar (not_char "{"); RChar "{";
        RGroup 2 (plus (not_char "}")); RChar "}"].

(** [new RegExp(`${prop}:\s*([^;]+)`, "gi")] *)
Definition propRegex (prop : string) : re := declaration (slit prop) (RGroup 1 rest_until_semicolon).

Definition add_style (prop : string) (v : chars) (styles : gmap string (list string))
  : gmap string (list string) :=
  <[prop := set_add (string_of_list_ascii v) (default [] (styles !! prop))]> styles.

Definition style_block_step (properties : list string) (styles : gmap string (list string))
    (m : rmatch_result) : gmap string (list string) :=
  let styleBlock := grp m 2 in
  fold_left (fun styles prop =>
               match exec_first true (propRegex prop) styleBlock with
               | Some pm => add_style prop (trim (grp pm 1)) styles
               | None => styles
               end) properties styles.

Definition extractSelectorStyles (d : document) (selector : string) (properties : list string)
  : gmap string (list string) :=
  let cssText := s2c (first_style_text d) in
  let styles := fold_left (style_block_step properties) (matchAll true (selectorRegex selector) cssText) ∅ in
  fmap (firstn 5) styles.

Definition set_component (name : string) (st : gmap string (list string)) (p : patterns) : patterns :=
  if decide (st = ∅) then p
  else {| wp_num := wp_num p; wp_str := wp_str p; wp_cssvars := wp_cssvars p;
          wp_comp := <[name := st]> (wp_comp p) |}.

Definition button_selector : string := "button, .button, [class*='btn']".
Definition card_selector : string := ".card, [class*='card']".
Definition input_selector : string := "input, .input, [class*='input']".

Definition extractComponentStyles (d : document) (p : patterns) : patterns :=
  let p := set_component "buttons"
             (extractSelectorStyles d button_selector
                ["background"; "color"; "padding"; "border-radius"; "font-weight"; "font-size";
                 "border"; "box-shadow"; "transition"]) p in
  let p := set_component "cards"
             (extractSelectorStyles d card_selector
                ["background"; "border-radius"; "box-shadow"; "padding"; "border"]) p in
  set_component "inputs"
    (extractSelectorStyles d input_selector
       ["border"; "border-radius"; "padding"; "font-size"; "background"]) p.

(** ** The per-document snapshot returned by [extractPaywallPatterns] *)

Record snapshot := {
  s_num : numcat -> list Q;
  s_str : strcat -> list string;
  s_layouts : layout;
  s_common : gmap string (gmap string string);
  s_comp : gmap string (gmap string (list string))
}.

(** The [.slice(0, k)] bounds of the return statement of
    [extractPaywallPatterns]. *)
Definition snapshot_cap_num (c : numcat) : nat :=
  match c with
  | fontSizes => 20 | fontWeights => 10 | lineHeights => 15 | letterSpacing => 10
  | spacing => 25 | borderRadius => 15 | opacities => 10 | zIndex => 10 | gaps => 15
  | widths => 15 | heights => 15 | breakpoints => 10
  end.

Definition snapshot_cap_str (c : strcat) : nat :=
  match c with
  | colors => 30 | fonts => 15 | shadows => 15 | borders => 15 | transitions => 15
  | transforms => 10 | gradients => 10 | displayTypes => 10 | flexProperties => 15
  | gridProperties => 10 | positions => 5 | textTransforms => 5 | textDecorations => 5
  | animations => 10
  end.

(** The extra condition of each [.filter((n) => !isNaN(n) && ...)]. *)
Definition snapshot_keep (c : numcat) (n : Q) : bool :=
  match c with
  | fontSizes | lineHeights => qltb 0 n
  | opacities => Qle_bool 0 n && Qle_bool n 1
  | _ => true
  end.

(** [Array.from(set).map(Number).filter(...).sort((a, b) => a - b).slice(0, k)] *)
Definition numeric_output (c : numcat) (xs : list string) : list Q :=
  firstn (snapshot_cap_num c)
    (qsort (filter (snapshot_keep c)
              (flat_map (fun x => match js_number (s2c x) with Some n => [n] | None => [] end) xs))).

(** [Array.from(set).slice(0, k)] *)
Definition string_output (c : strcat) (xs : list string) : list string :=
  firstn (snapshot_cap_str c) xs.

(** All the CSS text the rule set runs over: each [<style>] element, then
    each inline [style] attribute. *)
Definition collect (d : document) : patterns :=
  let p := fold_left (fun p e => extractPatternsFromCSS (s2c (inner e)) p) (style_elements d)
                     empty_patterns in
  let p := fold_left (fun p s => extractPatternsFromCSS (s2c s) p) (inline_styles d) p in
  extractComponentStyles d p.

Definition extractPaywallPatterns (d : document) : snapshot :=
  let p := collect d in
  {| s_num := fun c => numeric_output c (wp_num p c);
     s_str := fun c => string_output c (wp_str p c);
     s_layouts := extract_layouts d;
     s_common := match wp_cssvars p with
                 | Some vars => {[ "cssVariables" := vars ]}
                 | None => ∅
                 end;
     s_comp := wp_comp p |}.

(** Documents used in the examples and counterexamples below. *)
Definition style_el (css : string) : element :=
  {| tag := "style"; class_attr := None; style_attr := None; inner := css |}.

Definition plain_el (t : string) (cls : option string) : element :=
  {| tag := t; class_attr := cls; style_attr := None; inner := "" |}.

(** ** The aggregate profile and [mergePaywallPatterns] *)

Record profile := {
  count : nat;
  p_num : numcat -> list Q;
  p_str : strcat -> list string;
  p_layouts : list layout;
  p_common : gmap string (gmap string string);
  p_comp : gmap string (gmap string (list string))
}.

(** The initial value of [paywallPatterns], and the value the DELETE
    handler of [/api/paywall-patterns] assigns to it. *)
Definition empty_profile : profile :=
  {| count := 0; p_num := fun _ => []; p_str := fun _ => []; p_layouts := [];
     p_common := ∅; p_comp := ∅ |}.

Definition reset (_ : profile) : profile := empty_profile.

(** One iteration of [source.forEach] in [mergeArray] on a number [item]:
    with a tolerance, [target.find((t) => Math.abs(t - item) < tolerance)]
    and a push when [!existing]; without one, [target.includes(item)]. *)
Definition mergeArray_push_num (tolerance : Q) (target : list Q) (item : Q) : list Q :=
  if negb (Qeq_bool tolerance 0) then
    match find (fun t => qltb (Qabs (t - item)) tolerance) target with
    | None => target ++ [item]
    | Some existing => if Qeq_bool existing 0 then target ++ [item] else target
    end
  else if existsb (Qeq_bool item) target then target else target ++ [item].

(** The [source.forEach] loop of [mergeArray]. *)
Definition mergeArray_pushes_num (target source : list Q) (tolerance : Q) : list Q :=
  fold_left (mergeArray_push_num tolerance) source target.

(** [mergeArray(target, source, limit, tolerance)] on numbers: after the
    loop, [typeof target[0] === "number"] selects the sort. *)
Definition mergeArray_num (target source : list Q) (limit : nat) (tolerance : Q) : list Q :=
  let target := mergeArray_pushes_num target source tolerance in
  match target with
  | _ :: _ => firstn limit (qsort target)
  | [] => firstn limit target
  end.

(** [mergeArray(target, source, limit)] on strings: push unless
    [target.includes(item)], then [target.slice(0, limit)]. *)
Definition mergeArray_push_str (target : list string) (item : string) : list string :=
  if existsb (String.eqb item) target then target else target ++ [item].

Definition mergeArray_str (target source : list string) (limit : nat) : list string :=
  firstn limit (fold_left mergeArray_push_str source target).

(** The limits and tolerances of the [mergeArray] calls. *)
Definition merge_cap_num (c : numcat) : nat :=
  match c with
  | fontSizes => 25 | fontWeights => 12 | lineHeights => 20 | letterSpacing => 12
  | spacing => 30 | borderRadius => 20 | opacities => 12 | zIndex => 15 | gaps => 20
  | widths => 20 | heights => 20 | breakpoints => 15
  end.

Definition merge_tol (c : numcat) : Q :=
  match c with
  | fontSizes => 1 | fontWeights => 50 | lineHeights => 1 # 2 | letterSpacing => 1 # 10
  | spacing => 2 | borderRadius => 2 | opacities => 5 # 100 | zIndex => 10 | gaps => 2
  | widths => 10 | heights => 10 | breakpoints => 20
  end.

Definition merge_cap_str (c : strcat) : nat :=
  match c with
  | colors => 40 | fonts => 20 | shadows => 20 | borders => 20 | transitions => 20
  | transforms => 15 | gradients => 15 | displayTypes => 12 | flexProperties => 20
  | gridProperties => 15 | positions => 8 | textTransforms => 6 | textDecorations => 8
  | animations => 15
  end.

(** [layouts.push(l)], then [slice(-50)] above 50 entries. *)
Definition push_layout (ls : list layout) (l : layout) : list layout :=
  let ls := ls ++ [l] in
  if 50 <? List.length ls then skipn (List.length ls - 50) ls else ls.

(** For each component of the snapshot, [Object.assign] of the snapshot's
    property map into the stored one (created empty when missing): the
    snapshot's properties overwrite, the other stored ones stay. *)
Definition merge_components (stored snap : gmap string (gmap string (list string)))
  : gmap string (gmap string (list string)) :=
  union_with (fun old new => Some (new ∪ old)) stored snap.

Definition mergePaywallPatterns (p : profile) (s : snapshot) : profile :=
  {| count := S (count p);
     p_num := fun c => mergeArray_num (p_num p c) (s_num s c) (merge_cap_num c) (merge_tol c);
     p_str := fun c => mergeArray_str (p_str p c) (s_str s c) (merge_cap_str c);
     p_layouts := push_layout (p_layouts p) (s_layouts s);
     p_common := s_common s ∪ p_common p;
     p_comp := merge_components (p_comp p) (s_comp s) |}.

Definition merge_all (p : profile) (ss : list snapshot) : profile :=
  fold_left mergePaywallPatterns ss p.

(** ** Concrete documents and snapshots used below *)

Definition doc_padding0 : document := [style_el "body{padding:0}"].
Definition doc_padding1 : document := [style_el "body{padding:1px}"].

Definition doc_button_padding (v : string) : document :=
  [style_el ("button, .button, [class*='btn'] { padding: " ++ v ++ "; }")].


Definition doc_percent_sizes : document := [style_el "div{width: 50%; height: 100vh}"].

Definition doc_button_second_style : document :=
  [style_el "body{margin:0}"; style_el "button, .button, [class*='btn'] { padding: 8px; }"].

Definition doc_one_button : document := [plain_el "button" None].

(** [<div class="x&#9;button">]: two classes separated by a tab. *)
Definition doc_tab_button : document :=
  [plain_el "div" (Some (String "x"%char (String (ascii_of_nat 9) "button")))].

Definition doc_bolder : document := [style_el "p{font-weight: bolder}"].
Definition doc_lighter : document := [style_el "p{font-weight: lighter}"].

Definition no_layout : layout := {| buttons := 0; cards := 0; containers := 0; inputs := 0; modals := 0 |}.

(** A snapshot whose only content is one colour. *)
Definition color_snapshot (col : string) : snapshot :=
  {| s_num := fun _ => []; s_str := fun c => if decide (c = colors) then [col] else [];
     s_layouts := no_layout; s_common := ∅; s_comp := ∅ |}.

Definition digit_char (n : nat) : ascii := ascii_of_nat (48 + n).

(** Sixty colours #000, #010, ..., #590. *)
Definition sixty_colors : list string :=
  map (fun n => String "#" (String (digit_char (n / 10)) (String (digit_char (n mod 10)) "0")))
      (seq 0 60).

(** ** Figma documents: the node helpers of the Figma endpoints *)

(** [String.prototype.toLowerCase] on Latin-1. *)
Definition lower_char (c : ascii) : ascii :=
  let n := code c in
  if ((65 <=? n) && (n <=? 90)) || ((192 <=? n) && (n <=? 222) && negb (n =? 215))
  then ascii_of_nat (n + 32) else c.

Definition to_lower (s : string) : string :=
  string_of_list_ascii (map lower_char (list_ascii_of_string s)).

Definition str_includes (s needle : string) : bool := includes (s2c s) (s2c needle).

(** [s || d] on a string field that may be missing: the empty string is
    falsy. *)
Definition js_or_str (o : option string) (d : string) : string :=
  match o with
  | Some s => if String.eqb s "" then d else s
  | None => d
  end.

(** [v || d] on a number field that may be missing: 0 is falsy. *)
Definition js_or_num (o : option Q) (d : Q) : Q :=
  match o with
  | Some v => if Qeq_bool v 0 then d else v
  | None => d
  end.

(** [Math.round] *)
Definition js_round (x : Q) : Q := inject_Z (Qfloor (x + (1 # 2))%Q).

Record bbox := { bb_x : option Q; bb_y : option Q; bb_width : option Q; bb_height : option Q }.

Set Warnings "-register-all".

(** A node of the Figma file JSON, with the fields the helpers read; a fill
    is represented by its [type]. *)
Inductive fnode := FNode {
  f_id : option string;
  f_name : option string;
  f_type : option string;
  f_x : option Q;
  f_y : option Q;
  f_width : option Q;
  f_height : option Q;
  f_bbox : option bbox;
  f_fills : option (list (option string));
  f_children : option (list fnode)
}.

(** [node.type === t] *)
Definition type_is (n : fnode) (t : string) : bool :=
  match f_type n with Some s => String.eqb s t | None => false end.

(** [for (const child of children) { const found = f(child); if (found)
    return found; }], then [return null]. *)
Fixpoint first_found {A B} (f : A -> option B) (children : list A) : option B :=
  match children with
  | [] => None
  | child :: children' =>
      match f child with
      | Some found => Some found
      | None => first_found f children'
      end
  end.

(** [findNodeById(node, targetId)]: the node itself when [node.id ===
    targetId], else the first non-null result of the children, in order.
    The branch on path-like ids has an empty body and is left out. *)
Fixpoint findNodeById (n : fnode) (targetId : string) {struct n} : option fnode :=
  match n with
  | FNode id _ _ _ _ _ _ _ _ children =>
      if match id with Some i => String.eqb i targetId | None => false end then Some n
      else
        match children with
        | Some cs => first_found (fun child => findNodeById child targetId) cs
        | None => None
        end
  end.

(** [extractNodeDimensions(node)]: the rounded [absoluteBoundingBox]
    size, each dimension falling back on the rounded [node.width] /
    [node.height] when it is 0 and the field is truthy. *)
Definition extractNodeDimensions (n : fnode) : Q * Q :=
  let width := match f_bbox n with Some b => js_round (js_or_num (bb_width b) 0) | None => 0%Q end in
  let height := match f_bbox n with Some b => js_round (js_or_num (bb_height b) 0) | None => 0%Q end in
  let width := if Qeq_bool width 0 then
                 match f_width n with
                 | Some w => if Qeq_bool w 0 then width else js_round w
                 | None => width
                 end
               else width in
  let height := if Qeq_bool height 0 then
                  match f_height n with
                  | Some h => if Qeq_bool h 0 then height else js_round h
                  | None => height
                  end
                else height in
  (width, height).

(** The [isStatusBarElement] test of [findImageNodes] and
    [extractDesignTokens], on the lower-cased name. *)
Definition is_status_bar_name (nodeName : string) : bool :=
  existsb (str_includes nodeName)
    ["status"; "statusbar"; "status-bar"; "time"; "clock"; "wifi"; "signal"; "battery";
     "carrier"; "notch"; "safe area"; "safearea"; "home indicator"; "homeindicator";
     "home bar"; "homebar"; "home button"; "homebutton"; "gesture bar"; "gesturebar"]
  || (str_includes nodeName "indicator"
      && (str_includes nodeName "home" || str_includes nodeName "bottom")).

(** The [isImageNode] test of [findImageNodes]. *)
Definition is_image_node (n : fnode) (nodeName : string) : bool :=
  existsb (type_is n) ["VECTOR"; "COMPONENT"; "INSTANCE"; "ELLIPSE"; "RECTANGLE"]
  || match f_fills n with
     | Some fills => existsb (fun t => match t with Some t => String.eqb t "IMAGE" | None => false end) fills
     | None => false
     end
  || existsb (str_includes nodeName) ["icon"; "image"; "logo"; "avatar"; "illustration"; "graphic"].

Record image_info := {
  img_id : string; img_name : string; img_type : option string;
  img_width : Q; img_height : Q; img_x : Q; img_y : Q
}.

(** The object [findImageNodes] pushes for an image node. *)
Definition image_of (n : fnode) (i : string) : image_info :=
  let dims := extractNodeDimensions n in
  {| img_id := i; img_name := js_or_str (f_name n) "Unknown"; img_type := f_type n;
     img_width := fst dims; img_height := snd dims;
     img_x := js_or_num (f_bbox n ≫= bb_x) (js_or_num (f_x n) 0);
     img_y := js_or_num (f_bbox n ≫= bb_y) (js_or_num (f_y n) 0) |}.

(** The child loop of [findImageNodes]: append the images of each child,
    searched with the remaining budget [maxNodes - imageNodes.length], and
    stop once [maxNodes] is reached. *)
Fixpoint image_loop (f : fnode -> nat -> list image_info) (maxNodes : nat) (children : list fnode)
    (imageNodes : list image_info) : list image_info :=
  match children with
  | [] => imageNodes
  | child :: children' =>
      let imageNodes := imageNodes ++ f child (maxNodes - List.length imageNodes) in
      if maxNodes <=? List.length imageNodes then imageNodes
      else image_loop f maxNodes children' imageNodes
  end.

(** [findImageNodes(figmaNode, maxNodes, depth)] *)
Fixpoint findImageNodes (n : fnode) (maxNodes depth : nat) {struct n} : list image_info :=
  if 8 <? depth then [] else
  let nodeName := to_lower (js_or_str (f_name n) "") in
  if is_status_bar_name nodeName then [] else
  let imageNodes :=
    match f_id n with
    | Some i => if is_image_node n nodeName && negb (String.eqb i "") then [image_of n i] else []
    | None => []
    end in
  match n with
  | FNode _ _ _ _ _ _ _ _ _ (Some cs) =>
      if (List.length imageNodes <? maxNodes) && (depth <? 8) then
        image_loop (fun child k => findImageNodes child k (S depth)) maxNodes cs imageNodes
      else imageNodes
  | FNode _ _ _ _ _ _ _ _ _ None => imageNodes
  end.

(** [String(n)] on a natural number. *)
Fixpoint digits_of (fuel n : nat) (acc : string) : string :=
  match fuel with
  | O => acc
  | S fuel' =>
      let acc := String (ascii_of_nat (48 + n mod 10)) acc in
      if n <? 10 then acc else digits_of fuel' (n / 10) acc
  end.

Definition nat_to_string (n : nat) : string := digits_of (S n) n "".

Record section := {
  sec_name : string; sec_id : option string; sec_type : option string;
  sec_x : Q; sec_y : Q; sec_width : Q; sec_height : Q; sec_depth : nat
}.

(** The [isMajorSection] test of [identifySections]. *)
Definition is_major_section (n : fnode) (nodeName : string) : bool :=
  existsb (str_includes nodeName)
    ["header"; "hero"; "pricing"; "plan"; "card"; "button"; "footer"; "feature"; "cta"]
  || match f_children n with Some cs => 3 <? List.length cs | None => false end.

Definition section_of (n : fnode) (depth : nat) (sections : list section) : section :=
  {| sec_name := js_or_str (f_name n) ("section-" ++ nat_to_string (List.length sections));
     sec_id := f_id n; sec_type := f_type n;
     sec_x := js_or_num (f_x n) 0; sec_y := js_or_num (f_y n) 0;
     sec_width := js_or_num (f_width n) 0; sec_height := js_or_num (f_height n) 0;
     sec_depth := depth |}.

(** [identifySections(node, depth, sections)]: the array [sections] is
    shared by the recursive calls, so it is threaded through them. *)
Fixpoint identifySections (n : fnode) (depth : nat) (sections : list section) {struct n}
  : list section :=
  if 6 <? depth then sections else
  let nodeName := to_lower (js_or_str (f_name n) "") in
  let isSection := type_is n "FRAME" || type_is n "COMPONENT" || type_is n "GROUP" in
  let sections :=
    if isSection && (1 <=? depth) && is_major_section n nodeName
    then sections ++ [section_of n depth sections] else sections in
  match n with
  | FNode _ _ _ _ _ _ _ _ _ (Some cs) =>
      if depth <? 5 then
        fold_left (fun sections child => identifySections child (S depth) sections) cs sections
      else sections
  | FNode _ _ _ _ _ _ _ _ _ None => sections
  end.

(** [[a-zA-Z0-9]] *)
Definition is_alnum (c : ascii) : bool :=
  is_digit c || ((65 <=? code c) && (code c <=? 90)) || ((97 <=? code c) && (code c <=? 122)).

(** [/figma\.com\/(?:file|design)\/([a-zA-Z0-9]+)/] *)
Definition figmaFileKeyRegex : re :=
  seqs [slit "figma"; RChar "."; slit "com"; RChar "/"; alts [slit "file"; slit "design"];
        RChar "/"; RGroup 1 (plus (RClass is_alnum))].

(** [extractFigmaFileKey(url)]: [match[1]] of the first match, or [null]. *)
Definition extractFigmaFileKey (url : chars) : option chars :=
  match exec_first false figmaFileKeyRegex url with
  | Some m => Some (grp1 m)
  | None => None
  end.

(** ** Notions used in the statements below *)

(** [arr.slice(-n)]: the last [n] elements of a list. *)
Definition lastn {A} (n : nat) (l : list A) : list A := skipn (List.length l - n) l.

(** No two values of a list lie closer than [tol] to each other, the
    condition under which [mergeArray] pushes a number. *)
Definition separated (tol : Q) (l : list Q) : Prop :=
  ForallOrdPairs (fun a b => (tol <= Qabs (a - b))%Q) l.

Definition doc_padding2 : document := [style_el "body{padding:2px}"].

(** [RStar]'s inner loop, named so that statements can refer to it:
    [rmatch ic (RStar r1) rest c k] is [rmatch_star_loop ic r1 k (length rest) rest c]. *)
Definition rmatch_star_loop (ic : bool) (r1 : re) (k : chars -> caps -> mresult)
    : nat -> chars -> caps -> mresult :=
  fix loop (n : nat) (rest : chars) (c : caps) {struct n} : mresult :=
    match n with
    | O => k rest c
    | S n' =>
        match rmatch ic r1 rest c
                (fun rest' c' =>
                   if List.length rest' <? List.length rest
                   then loop n' rest' c' else None) with
        | Some x => Some x
        | None => k rest c
        end
    end.

(** [subtree m n]: [m] is [n] or lies below it through [children]. *)
Inductive subtree : fnode -> fnode -> Prop :=
| sub_here (n : fnode) : subtree n n
| sub_child (n : fnode) (cs : list fnode) (c m : fnode) :
    f_children n = Some cs -> In c cs -> subtree m c -> subtree m n.

(** [reach ok m n]: [m] lies below [n] on a path all of whose nodes
    satisfy [ok]. *)
Inductive reach (ok : fnode -> Prop) : fnode -> fnode -> Prop :=
| reach_here (n : fnode) : ok n -> reach ok n n
| reach_child (n : fnode) (cs : list fnode) (c m : fnode) :
    ok n -> f_children n = Some cs -> In c cs -> reach ok m c -> reach ok m n.

(** The lower-cased name [findImageNodes] tests: [(figmaNode.name || "").toLowerCase()]. *)
Definition node_name_lower (n : fnode) : string := to_lower (js_or_str (f_name n) "").

(** Induction over Figma nodes, through the nested children list. *)
Section FnodeInd.
Variable P : fnode -> Prop.
Hypothesis Hnode : forall n,
  match f_children n with Some cs => List.Forall P cs | None => True end -> P n.
Fixpoint fnode_ind' (n : fnode) : P n :=
  Hnode n
    (match n as n0 return match f_children n0 with Some cs => List.Forall P cs | None => True end with
     | FNode _ _ _ _ _ _ _ _ _ ch =>
         match ch as ch0 return match ch0 with Some cs => List.Forall P cs | None => True end with
         | Some cs =>
             (fix go (l : list fnode) : List.Forall P l :=
                match l with
                | [] => @List.Forall_nil _ P
                | x :: l' => @List.Forall_cons _ P x l' (fnode_ind' x) (go l')
                end) cs
         | None => I
         end
     end).
End FnodeInd.

(** A small Figma document: a page holding a header frame (an icon, a
    status bar and a text) and a logo. *)
Definition figma_leaf (id name ty : string) : fnode :=
  FNode (Some id) (Some name) (Some ty) None None (Some (104 # 10)) None None None None.
Definition figma_hero : fnode :=
  FNode (Some "1:1") (Some "Hero Header") (Some "FRAME") None None None None None None
    (Some [figma_leaf "2:1" "Icon Star" "VECTOR"; figma_leaf "2:2" "Status Bar" "VECTOR";
           figma_leaf "2:3" "Text" "TEXT"]).
Definition figma_sample : fnode :=
  FNode (Some "0:1") (Some "Page") (Some "CANVAS") None None None None None None
    (Some [figma_hero; figma_leaf "1:2" "Logo" "RECTANGLE"]).

(** * Properties *)

(** ** The numeric sort *)

Lemma qinsert_perm (x : Q) (l : list Q) : Permutation (qinsert x l) (x :: l).
Proof.
  induction l as [|y l IH]; simpl; [reflexivity|].
  destruct (Qle_bool y x); [|reflexivity].
  rewrite IH. apply perm_swap.
Qed.

Lemma qsort_fold_perm (l acc : list Q) :
  Permutation (fold_left (fun acc x => qinsert x acc) l acc) (l ++ acc).
Proof.
  revert acc. induction l as [|x l IH]; intros acc; simpl; [reflexivity|].
  rewrite IH, qinsert_perm. symmetry. apply Permutation_middle.
Qed.

Lemma qsort_perm (l : list Q) : Permutation (qsort l) l.
Proof. unfold qsort. rewrite qsort_fold_perm. rewrite app_nil_r. reflexivity. Qed.

Lemma qinsert_hdrel (a x : Q) (l : list Q) :
  HdRel Qle a l -> (a <= x)%Q -> HdRel Qle a (qinsert x l).
Proof.
  intros Hl Hax. destruct l as [|y l]; simpl.
  - constructor. exact Hax.
  - destruct (Qle_bool y x); constructor; [inversion Hl; assumption | exact Hax].
Qed.

Lemma qinsert_sorted (x : Q) (l : list Q) : Sorted Qle l -> Sorted Qle (qinsert x l).
Proof.
  induction l as [|y l IH]; intros Hs; simpl.
  - repeat constructor.
  - apply Sorted_inv in Hs as [Hl Hhd].
    destruct (Qle_bool y x) eqn:E.
    + apply Qle_bool_iff in E. constructor; [apply IH, Hl|].
      apply qinsert_hdrel; assumption.
    + assert (Hxy : (x <= y)%Q).
      { apply Qlt_le_weak, Qnot_le_lt. intros H. apply Qle_bool_iff in H. congruence. }
      constructor; [constructor; assumption|]. constructor. exact Hxy.
Qed.

Lemma qsort_sorted (l : list Q) : Sorted Qle (qsort l).
Proof.
  unfold qsort.
  assert (H : forall acc, Sorted Qle acc -> Sorted Qle (fold_left (fun acc x => qinsert x acc) l acc)).
  { induction l as [|x l IH]; intros acc Hacc; simpl; [exact Hacc|].
    apply IH, qinsert_sorted, Hacc. }
  apply H. constructor.
Qed.

Lemma firstn_hdrel {A} (R : A -> A -> Prop) (a : A) (n : nat) (l : list A) :
  HdRel R a l -> HdRel R a (firstn n l).
Proof.
  intros H. destruct n, l; simpl; try constructor. inversion H; assumption.
Qed.

Lemma firstn_sorted {A} (R : A -> A -> Prop) (n : nat) (l : list A) :
  Sorted R l -> Sorted R (firstn n l).
Proof.
  revert l. induction n as [|n IH]; intros l Hs; simpl; [constructor|].
  destruct l as [|a l]; [constructor|].
  apply Sorted_inv in Hs as [Hl Hhd].
  constructor; [apply IH, Hl | apply firstn_hdrel, Hhd].
Qed.

Lemma strongly_sorted_app {A} (R : A -> A -> Prop) (l1 l2 : list A) :
  StronglySorted R (l1 ++ l2) -> forall x y, In x l1 -> In y l2 -> R x y.
Proof.
  induction l1 as [|a l1 IH]; simpl; intros Hs x y Hx Hy; [contradiction|].
  apply StronglySorted_inv in Hs as [Hs Hall].
  destruct Hx as [<-|Hx].
  - rewrite List.Forall_forall in Hall. apply Hall, in_or_app. right. exact Hy.
  - apply IH; assumption.
Qed.

Lemma Qle_trans' : Transitive Qle.
Proof. intros a b c. apply Qle_trans. Qed.

(** The result of [mergeArray] on numbers is the sorted accumulated list
    cut at the limit: sorted, and every dropped value is at least every
    kept one. *)
Lemma mergeArray_num_spec (target source : list Q) (limit : nat) (tolerance : Q) :
  let l := mergeArray_num target source limit tolerance in
  Sorted Qle l /\
  exists full, Permutation full (mergeArray_pushes_num target source tolerance) /\
    Sorted Qle full /\ l = firstn limit full /\
    (forall x y, In x l -> In y (skipn limit full) -> (x <= y)%Q).
Proof.
  intros l.
  assert (Hfull : exists full, Permutation full (mergeArray_pushes_num target source tolerance) /\
                     Sorted Qle full /\ l = firstn limit full).
  { subst l. unfold mergeArray_num.
    destruct (mergeArray_pushes_num target source tolerance) as [|a t].
    - exists []. split; [apply Permutation_refl|]. split; [constructor|reflexivity].
    - exists (qsort (a :: t)). split; [apply qsort_perm|]. split; [apply qsort_sorted|reflexivity]. }
  destruct Hfull as (full & Hp & Hs & Hl).
  split; [rewrite Hl; apply firstn_sorted, Hs|].
  exists full. repeat split; try assumption.
  intros x y Hx Hy. rewrite Hl in Hx.
  apply (strongly_sorted_app Qle (firstn limit full) (skipn limit full)); try assumption.
  rewrite firstn_skipn. apply Sorted_StronglySorted; [apply Qle_trans' | exact Hs].
Qed.

(** ** Capacity *)

Lemma mergeArray_num_length (target source : list Q) (limit : nat) (tolerance : Q) :
  List.length (mergeArray_num target source limit tolerance) <= limit.
Proof.
  unfold mergeArray_num. destruct (mergeArray_pushes_num target source tolerance);
    apply firstn_le_length.
Qed.

Lemma mergeArray_str_length (target source : list string) (limit : nat) :
  List.length (mergeArray_str target source limit) <= limit.
Proof. apply firstn_le_length. Qed.

Definition within_capacity (p : profile) : Prop :=
  (forall c, List.length (p_num p c) <= merge_cap_num c) /\
  (forall c, List.length (p_str p c) <= merge_cap_str c).

Lemma merge_all_within_capacity (p : profile) (ss : list snapshot) :
  within_capacity p -> within_capacity (merge_all p ss).
Proof.
  revert p. induction ss as [|s ss IH]; intros p Hp; simpl; [exact Hp|].
  apply IH. split; intros c; simpl; [apply mergeArray_num_length | apply mergeArray_str_length].
Qed.

Lemma empty_within_capacity : within_capacity empty_profile.
Proof. split; intros c; simpl; lia. Qed.

Lemma push_str_fresh (t s : list string) :
  NoDup s -> (forall x, x ∈ s -> x ∉ t) -> fold_left mergeArray_push_str s t = t ++ s.
Proof.
  revert t. induction s as [|a s IH]; intros t Hnd Hfresh; simpl.
  - by rewrite app_nil_r.
  - apply NoDup_cons in Hnd as [Ha Hnd].
    assert (Hnot : existsb (String.eqb a) t = false).
    { apply not_true_iff_false. intros Hex. apply existsb_exists in Hex as (y & Hy & Hay).
      apply String.eqb_eq in Hay. subst y.
      apply (Hfresh a); [left | apply list_elem_of_In; exact Hy]. }
    unfold mergeArray_push_str at 2. rewrite Hnot.
    rewrite IH; [by rewrite <- app_assoc | exact Hnd|].
    intros x Hx Hxt. apply elem_of_app in Hxt as [Hxt|Hxt].
    + apply (Hfresh x); [right; exact Hx | exact Hxt].
    + apply list_elem_of_singleton in Hxt. subst x. contradiction.
Qed.

Lemma firstn_firstn_app {A} (n : nat) (X Y : list A) :
  firstn n (firstn n X ++ Y) = firstn n (X ++ Y).
Proof.
  revert X. induction n as [|n IH]; intros X; [reflexivity|].
  destruct X as [|x X]; simpl; [reflexivity|]. f_equal. apply IH.
Qed.

Lemma elem_of_firstn {A} (n : nat) (X : list A) (x : A) : x ∈ firstn n X -> x ∈ X.
Proof.
  rewrite !list_elem_of_In. revert X. induction n as [|n IH]; intros X H; [contradiction|].
  destruct X as [|y X]; [contradiction|]. destruct H as [H|H]; [left; exact H|right; apply IH, H].
Qed.

(** Colours that are new to every earlier document are all kept until the
    limit: the stored list is the first 40 colours seen. *)
Lemma colors_after_fresh (ss : list snapshot) (p : profile) (X : list string) :
  p_str p colors = firstn 40 X ->
  NoDup (X ++ concat (map (fun s => s_str s colors) ss)) ->
  p_str (merge_all p ss) colors = firstn 40 (X ++ concat (map (fun s => s_str s colors) ss)).
Proof.
  revert p X. induction ss as [|s ss IH]; intros p X Hp Hnd; simpl in *.
  - by rewrite app_nil_r.
  - rewrite app_assoc in Hnd |- *. apply IH; [|exact Hnd].
    simpl. rewrite Hp. unfold mergeArray_str.
    apply NoDup_app in Hnd as [Hnd _]. apply NoDup_app in Hnd as (_ & Hdisj & Hnds).
    rewrite push_str_fresh; [apply firstn_firstn_app | exact Hnds |].
    intros x Hx Hxt. apply (Hdisj x); [apply (elem_of_firstn 40); exact Hxt | exact Hx].
Qed.

Lemma concat_singletons {A} (cs : list A) : concat (map (fun x => [x]) cs) = cs.
Proof. induction cs as [|x cs IH]; simpl; [reflexivity|]. by rewrite IH. Qed.

(** ** Count *)

Lemma merge_all_count (p : profile) (ss : list snapshot) :
  count (merge_all p ss) = count p + List.length ss.
Proof.
  revert p. induction ss as [|s ss IH]; intros p; simpl; [lia|].
  rewrite IH. simpl. lia.
Qed.

(** * Further properties of the merge *)

(** ** Layout history *)

Lemma push_layout_lastn (ls : list layout) (l : layout) :
  push_layout ls l = lastn 50 (ls ++ [l]).
Proof.
  unfold push_layout, lastn. destruct (50 <? List.length (ls ++ [l])) eqn:E; [reflexivity|].
  apply Nat.ltb_ge in E. replace (List.length (ls ++ [l]) - 50) with 0 by lia. reflexivity.
Qed.

Lemma length_lastn {A} (n : nat) (l : list A) : List.length (lastn n l) <= n.
Proof. unfold lastn. rewrite length_skipn. lia. Qed.

Lemma lastn_app_lastn {A} (n : nat) (X Y : list A) :
  lastn n (lastn n X ++ Y) = lastn n (X ++ Y).
Proof.
  unfold lastn. rewrite !length_app, length_skipn.
  set (k := List.length X - n).
  assert (Hk : skipn k (X ++ Y) = skipn k X ++ Y).
  { rewrite skipn_app. replace (k - List.length X) with 0 by (subst k; lia). reflexivity. }
  replace (List.length X + List.length Y - n) with ((List.length X - k + List.length Y - n) + k)
    by (subst k; lia).
  rewrite <- skipn_skipn, Hk. reflexivity.
Qed.

(** ** String categories *)

Lemma push_str_app (src t : list string) :
  exists extra, fold_left mergeArray_push_str src t = t ++ extra /\
    forall x, In x extra -> In x src /\ ~ In x t.
Proof.
  revert t. induction src as [|a src IH]; intros t; simpl.
  - exists []. split; [by rewrite app_nil_r | intros x []].
  - unfold mergeArray_push_str at 2. destruct (existsb (String.eqb a) t) eqn:E.
    + destruct (IH t) as (extra & -> & Hx). exists extra. split; [reflexivity|].
      intros x Hin. destruct (Hx x Hin). split; [right|]; assumption.
    + destruct (IH (t ++ [a])) as (extra & -> & Hx). exists (a :: extra).
      split; [by rewrite <- app_assoc|].
      intros x [<-|Hin].
      * split; [left; reflexivity|]. intros Ht.
        assert (Hex : existsb (String.eqb a) t = true).
        { apply existsb_exists. exists a. split; [exact Ht | apply String.eqb_refl]. }
        congruence.
      * destruct (Hx x Hin) as [Hs Hn]. split; [right; exact Hs|].
        intros Ht. apply Hn, in_or_app. left. exact Ht.
Qed.

Lemma in_push_str (src t : list string) (x : string) :
  In x src \/ In x t -> In x (fold_left mergeArray_push_str src t).
Proof.
  revert t. induction src as [|a src IH]; intros t H; simpl.
  - destruct H as [[]|H]; exact H.
  - apply IH. unfold mergeArray_push_str. destruct H as [[<-|H]|H].
    + right. destruct (existsb (String.eqb a) t) eqn:E.
      * apply existsb_exists in E as (y & Hy & Hxy). apply String.eqb_eq in Hxy. subst y. exact Hy.
      * apply in_or_app. right. left. reflexivity.
    + left. exact H.
    + right. destruct (existsb (String.eqb a) t); [exact H | apply in_or_app; left; exact H].
Qed.

Lemma push_str_present (src t : list string) :
  (forall x, In x src -> In x t) -> fold_left mergeArray_push_str src t = t.
Proof.
  revert t. induction src as [|a src IH]; intros t H; simpl; [reflexivity|].
  unfold mergeArray_push_str at 2.
  assert (Hex : existsb (String.eqb a) t = true).
  { apply existsb_exists. exists a. split; [apply H; left; reflexivity | apply String.eqb_refl]. }
  rewrite Hex. apply IH. intros x Hx. apply H. right. exact Hx.
Qed.

Lemma in_firstn {A} (n : nat) (l : list A) (x : A) : In x (firstn n l) -> In x l.
Proof. rewrite <- !list_elem_of_In. apply elem_of_firstn. Qed.

Lemma NoDup_firstn' {A} (n : nat) (l : list A) : NoDup l -> NoDup (firstn n l).
Proof.
  intros H. rewrite <- (firstn_skipn n l) in H. apply NoDup_app in H as [H _]. exact H.
Qed.

Lemma NoDup_push_str (src t : list string) : NoDup t -> NoDup (fold_left mergeArray_push_str src t).
Proof.
  revert t. induction src as [|a src IH]; intros t Ht; simpl; [exact Ht|].
  apply IH. unfold mergeArray_push_str. destruct (existsb (String.eqb a) t) eqn:E; [exact Ht|].
  apply NoDup_app. split; [exact Ht|]. split; [|apply NoDup_singleton].
  intros x Hx Hs. apply list_elem_of_singleton in Hs. subst x.
  apply list_elem_of_In in Hx.
  assert (Hex : existsb (String.eqb a) t = true).
  { apply existsb_exists. exists a. split; [exact Hx | apply String.eqb_refl]. }
  congruence.
Qed.

Lemma mergeArray_str_in (t src : list string) (limit : nat) (x : string) :
  In x (mergeArray_str t src limit) -> In x t \/ In x src.
Proof.
  unfold mergeArray_str. intros H. apply in_firstn in H.
  destruct (push_str_app src t) as (extra & Heq & Hx). rewrite Heq in H.
  apply in_app_or in H as [H|H]; [left; exact H | right; apply (Hx x H)].
Qed.

(** ** Numeric categories *)

Lemma push_num_in (tolerance : Q) (t : list Q) (item x : Q) :
  In x (mergeArray_push_num tolerance t item) -> In x t \/ x = item.
Proof.
  unfold mergeArray_push_num.
  assert (Happ : In x (t ++ [item]) -> In x t \/ x = item).
  { intros H. apply in_app_or in H as [H|[H|[]]]; [left; exact H | right; symmetry; exact H]. }
  destruct (negb (Qeq_bool tolerance 0)).
  - destruct (find _ t) as [e|]; [destruct (Qeq_bool e 0)|]; auto.
  - destruct (existsb (Qeq_bool item) t); auto.
Qed.

Lemma pushes_num_in (t src : list Q) (tolerance x : Q) :
  In x (mergeArray_pushes_num t src tolerance) -> In x t \/ In x src.
Proof.
  unfold mergeArray_pushes_num. revert t. induction src as [|a src IH]; intros t H; simpl in *.
  - left. exact H.
  - destruct (IH _ H) as [H'|H']; [|right; right; exact H'].
    destruct (push_num_in _ _ _ _ H') as [H2 | ->]; [left; exact H2 | right; left; reflexivity].
Qed.

Lemma mergeArray_num_in (t src : list Q) (limit : nat) (tolerance x : Q) :
  In x (mergeArray_num t src limit tolerance) -> In x t \/ In x src.
Proof.
  unfold mergeArray_num. intros H. apply pushes_num_in with (tolerance := tolerance).
  destruct (mergeArray_pushes_num t src tolerance) as [|a l] eqn:E.
  - apply in_firstn in H. exact H.
  - apply in_firstn in H. apply (Permutation_in _ (qsort_perm (a :: l))) in H. exact H.
Qed.

Lemma FOP_app_single {A} (R : A -> A -> Prop) (l : list A) (x : A) :
  ForallOrdPairs R l -> (forall y, In y l -> R y x) -> ForallOrdPairs R (l ++ [x]).
Proof.
  induction l as [|a l IH]; intros Hl Hx; simpl.
  - constructor; constructor.
  - inversion Hl as [|a' l' Ha Hl']; subst. constructor.
    + apply List.Forall_app. split; [exact Ha|]. constructor; [apply Hx; left; reflexivity | constructor].
    + apply IH; [exact Hl'|]. intros y Hy. apply Hx. right. exact Hy.
Qed.

Lemma FOP_perm {A} (R : A -> A -> Prop) (l l' : list A) :
  (forall a b, R a b -> R b a) -> Permutation l l' -> ForallOrdPairs R l -> ForallOrdPairs R l'.
Proof.
  intros Hsym Hp. induction Hp as [|x l l' Hp IH|x y l|l l' l'' _ IH1 _ IH2]; intros H.
  - exact H.
  - inversion H as [|x' l0 Hx Hl]; subst. constructor; [|apply IH, Hl].
    rewrite List.Forall_forall in Hx |- *. intros z Hz. apply Hx.
    apply (Permutation_in _ (Permutation_sym Hp)), Hz.
  - inversion H as [|y' l0 Hy Hl]; subst. inversion Hl as [|x' l1 Hx Hl']; subst.
    inversion Hy as [|y'' l2 Hyx Hyl]; subst.
    constructor; [constructor; [apply Hsym, Hyx | exact Hx]|]. constructor; assumption.
  - apply IH2, IH1, H.
Qed.

Lemma FOP_firstn {A} (R : A -> A -> Prop) (n : nat) (l : list A) :
  ForallOrdPairs R l -> ForallOrdPairs R (firstn n l).
Proof.
  revert n. induction l as [|a l IH]; intros n H; destruct n; simpl; try constructor.
  - inversion H as [|a' l' Ha Hl]; subst. rewrite List.Forall_forall in Ha |- *.
    intros y Hy. apply Ha, (in_firstn n), Hy.
  - inversion H; subst. apply IH. assumption.
Qed.

Lemma nonzero_dec (x : Q) : ~ (x == 0)%Q -> Qeq_bool x 0 = false.
Proof.
  intros H. destruct (Qeq_bool x 0) eqn:E; [|reflexivity]. apply Qeq_bool_iff in E. contradiction.
Qed.

Lemma push_num_separated (tolerance : Q) (t : list Q) (item : Q) :
  ~ (tolerance == 0)%Q -> ~ (item == 0)%Q ->
  List.Forall (fun x => ~ (x == 0)%Q) t -> separated tolerance t ->
  List.Forall (fun x => ~ (x == 0)%Q) (mergeArray_push_num tolerance t item) /\
  separated tolerance (mergeArray_push_num tolerance t item).
Proof.
  intros Htol Hitem Hnz Hsep. unfold mergeArray_push_num. rewrite (nonzero_dec _ Htol). cbn [negb].
  destruct (find (fun t0 => qltb (Qabs (t0 - item)) tolerance) t) as [e|] eqn:Ef.
  - apply find_some in Ef as [He _].
    rewrite (nonzero_dec _ (proj1 (List.Forall_forall _ _) Hnz e He)). split; assumption.
  - split.
    + apply List.Forall_app. split; [exact Hnz | constructor; [exact Hitem | constructor]].
    + apply FOP_app_single; [exact Hsep|]. intros y Hy.
      pose proof (find_none _ _ Ef y Hy) as Hn. simpl in Hn. unfold qltb in Hn.
      apply negb_false_iff, Qle_bool_iff in Hn. exact Hn.
Qed.

Lemma merge_tol_nonzero (c : numcat) : ~ (merge_tol c == 0)%Q.
Proof. destruct c; intros H; compute in H; discriminate. Qed.

Lemma mergeArray_num_separated (t src : list Q) (c : numcat) :
  List.Forall (fun x => ~ (x == 0)%Q) src ->
  List.Forall (fun x => ~ (x == 0)%Q) t -> separated (merge_tol c) t ->
  List.Forall (fun x => ~ (x == 0)%Q) (mergeArray_num t src (merge_cap_num c) (merge_tol c)) /\
  separated (merge_tol c) (mergeArray_num t src (merge_cap_num c) (merge_tol c)).
Proof.
  intros Hsrc Hnz Hsep.
  assert (Hp : List.Forall (fun x => ~ (x == 0)%Q) (mergeArray_pushes_num t src (merge_tol c)) /\
               separated (merge_tol c) (mergeArray_pushes_num t src (merge_tol c))).
  { unfold mergeArray_pushes_num. revert t Hnz Hsep.
    induction src as [|a src IH]; intros t Hnz Hsep; simpl; [split; assumption|].
    inversion Hsrc as [|a' src' Ha Hs]; subst.
    destruct (push_num_separated (merge_tol c) t a (merge_tol_nonzero c) Ha Hnz Hsep).
    apply IH; assumption. }
  destruct Hp as [Hnz' Hsep']. unfold mergeArray_num.
  assert (Hsym : forall a b, (merge_tol c <= Qabs (a - b))%Q -> (merge_tol c <= Qabs (b - a))%Q).
  { intros a b H. rewrite Qabs_Qminus. exact H. }
  destruct (mergeArray_pushes_num t src (merge_tol c)) as [|a l] eqn:E.
  - rewrite firstn_nil. split; constructor.
  - split.
    + rewrite List.Forall_forall in Hnz' |- *. intros x Hx. apply Hnz'.
      apply in_firstn in Hx. apply (Permutation_in _ (qsort_perm (a :: l))), Hx.
    + apply FOP_firstn. apply (FOP_perm _ (a :: l)); [exact Hsym | symmetry; apply qsort_perm | exact Hsep'].
Qed.

(** ** Set invariants of [extractPatternsFromCSS] *)

Lemma each_preserves {A} (P : patterns -> Prop) (ms : list A) (body : A -> patterns -> patterns)
    (p : patterns) :
  (forall m q, P q -> P (body m q)) -> P p -> P (each ms body p).
Proof.
  intros Hb. unfold each. revert p. induction ms as [|m ms IH]; intros p Hp; simpl; [exact Hp|].
  apply IH, Hb, Hp.
Qed.

Lemma fold_add_str_preserves (P : patterns -> Prop) (c : strcat) (xs : list chars) (p : patterns) :
  (forall c x q, P q -> P (add_str c x q)) -> P p -> P (fold_left (fun p f => add_str c f p) xs p).
Proof.
  intros Hs. revert p. induction xs as [|x xs IH]; intros p Hp; simpl; [exact Hp|].
  apply IH, Hs, Hp.
Qed.

Lemma extract_css_preserves (P : patterns -> Prop) :
  (forall c x q, P q -> P (add_num c x q)) ->
  (forall c x q, P q -> P (add_str c x q)) ->
  (forall n v q, P q -> P (set_cssvar n v q)) ->
  forall css p, P p -> P (extractPatternsFromCSS css p).
Proof.
  intros Hn Hs Hv css p Hp.
  unfold extractPatternsFromCSS, add_numeric_captures, add_trimmed_captures. cbv zeta.
  repeat (apply each_preserves; [intros m q Hq;
    unfold add_fonts, add_font_weight, add_border, add_css_var; cbv beta zeta;
    solve [repeat case_match; auto | apply fold_add_str_preserves; auto]|]).
  exact Hp.
Qed.

Lemma set_add_NoDup (x : string) (s : list string) : NoDup s -> NoDup (set_add x s).
Proof.
  unfold set_add. destruct (existsb (String.eqb x) s) eqn:E; intros H; [exact H|].
  apply NoDup_app. split; [exact H|]. split; [|apply NoDup_singleton].
  intros y Hy Hs. apply list_elem_of_singleton in Hs. subst y.
  apply list_elem_of_In in Hy.
  assert (Hex : existsb (String.eqb x) s = true).
  { apply existsb_exists. exists x. split; [exact Hy | apply String.eqb_refl]. }
  congruence.
Qed.

Lemma set_add_nonempty (x : string) (s : list string) : NoDup s -> set_add x s <> [].
Proof.
  unfold set_add. destruct (existsb (String.eqb x) s) eqn:E; intros _.
  - destruct s; simpl in E; congruence.
  - destruct s; simpl; congruence.
Qed.

Definition sets_distinct (p : patterns) : Prop :=
  (forall c, NoDup (wp_num p c)) /\ (forall c, NoDup (wp_str p c)).

Lemma extract_css_distinct (css : chars) (p : patterns) :
  sets_distinct p -> sets_distinct (extractPatternsFromCSS css p).
Proof.
  apply extract_css_preserves.
  - intros c x q [Hn Hs]. split; [|exact Hs]. intros c'. simpl.
    destruct (decide (c' = c)); [apply set_add_NoDup|]; apply Hn.
  - intros c x q [Hn Hs]. split; [exact Hn|]. intros c'. simpl.
    destruct (decide (c' = c)); [apply set_add_NoDup|]; apply Hs.
  - intros n v q H. exact H.
Qed.

Lemma extract_css_comp (css : chars) (p : patterns) :
  wp_comp (extractPatternsFromCSS css p) = wp_comp p.
Proof.
  apply (extract_css_preserves (fun q => wp_comp q = wp_comp p)); try (intros; assumption);
    reflexivity.
Qed.

Lemma collect_distinct (d : document) : sets_distinct (collect d).
Proof.
  unfold collect.
  assert (H0 : sets_distinct empty_patterns) by (split; intros; constructor).
  assert (Hf : forall {A} (xs : list A) (f : A -> chars) p, sets_distinct p ->
             sets_distinct (fold_left (fun p x => extractPatternsFromCSS (f x) p) xs p)).
  { intros A xs f. induction xs as [|x xs IH]; intros p Hp; simpl; [exact Hp|].
    apply IH, extract_css_distinct, Hp. }
  assert (Hc : forall q, sets_distinct q -> sets_distinct (extractComponentStyles d q)).
  { intros q Hq. unfold extractComponentStyles, set_component.
    repeat case_match; exact Hq. }
  apply Hc, (Hf _ _ (fun s => s2c s)), (Hf _ _ (fun e => s2c (inner e))), H0.
Qed.

Lemma collect_fold_comp (d : document) :
  wp_comp (fold_left (fun p s => extractPatternsFromCSS (s2c s) p) (inline_styles d)
             (fold_left (fun p e => extractPatternsFromCSS (s2c (inner e)) p) (style_elements d)
                empty_patterns)) = ∅.
Proof.
  assert (Hf : forall {A} (xs : list A) (f : A -> chars) p, wp_comp p = ∅ ->
             wp_comp (fold_left (fun p x => extractPatternsFromCSS (f x) p) xs p) = ∅).
  { intros A xs f. induction xs as [|x xs IH]; intros p Hp; simpl; [exact Hp|].
    apply IH. rewrite extract_css_comp. exact Hp. }
  apply (Hf _ _ (fun s => s2c s)), (Hf _ _ (fun e => s2c (inner e))). reflexivity.
Qed.

Lemma set_component_lookup (name : string) (st : gmap string (list string)) (q : patterns)
    (k : string) (m : gmap string (list string)) :
  wp_comp (set_component name st q) !! k = Some m ->
  (k = name /\ m = st /\ st <> ∅) \/ wp_comp q !! k = Some m.
Proof.
  unfold set_component. intros H. destruct (decide (st = ∅)); [right; exact H|]. simpl in H.
  destruct (decide (k = name)) as [->|Hne].
  - rewrite lookup_insert_eq in H. left. split; [reflexivity|]. split; [congruence | assumption].
  - rewrite lookup_insert_ne in H by congruence. right. exact H.
Qed.

Definition styles_ok (properties : list string) (styles : gmap string (list string)) : Prop :=
  forall k v, styles !! k = Some v -> v <> [] /\ NoDup v /\ In k properties.

Lemma add_style_ok (properties : list string) (prop : string) (v : chars)
    (styles : gmap string (list string)) :
  In prop properties -> styles_ok properties styles ->
  styles_ok properties (add_style prop v styles).
Proof.
  intros Hp Hs k w. unfold add_style. destruct (decide (k = prop)) as [->|Hne].
  - rewrite lookup_insert_eq. intros [= <-].
    assert (Hnd : NoDup (default [] (styles !! prop))).
    { destruct (styles !! prop) as [old|] eqn:E; simpl; [apply (Hs _ _ E) | constructor]. }
    split; [apply set_add_nonempty, Hnd|]. split; [apply set_add_NoDup, Hnd | exact Hp].
  - rewrite lookup_insert_ne by congruence. apply Hs.
Qed.

Lemma style_block_step_ok (properties : list string) (styles : gmap string (list string))
    (m : rmatch_result) :
  styles_ok properties styles -> styles_ok properties (style_block_step properties styles m).
Proof.
  unfold style_block_step.
  assert (H : forall props styles, (forall x, In x props -> In x properties) ->
            styles_ok properties styles ->
            styles_ok properties
              (fold_left (fun styles prop =>
                 match exec_first true (propRegex prop) (grp m 2) with
                 | Some pm => add_style prop (trim (grp pm 1)) styles
                 | None => styles
                 end) props styles)).
  { induction props as [|x props IH]; intros st Hin Hst; simpl; [exact Hst|].
    apply IH; [intros y Hy; apply Hin; right; exact Hy|].
    destruct (exec_first true (propRegex x) (grp m 2)); [|exact Hst].
    apply add_style_ok; [apply Hin; left; reflexivity | exact Hst]. }
  apply H. intros x Hx. exact Hx.
Qed.

Lemma selector_styles_ok (d : document) (selector : string) (properties : list string)
    (prop : string) (l : list string) :
  extractSelectorStyles d selector properties !! prop = Some l ->
  l <> [] /\ List.length l <= 5 /\ NoDup l /\ In prop properties.
Proof.
  unfold extractSelectorStyles. rewrite lookup_fmap.
  set (ms := matchAll true (selectorRegex selector) (s2c (first_style_text d))).
  assert (Hok : styles_ok properties (fold_left (style_block_step properties) ms ∅)).
  { assert (H0 : styles_ok properties ∅) by (intros k v Hk; rewrite lookup_empty in Hk; discriminate).
    revert H0. generalize (∅ : gmap string (list string)).
    induction ms as [|m ms IH]; intros st Hst; simpl; [exact Hst|].
    apply IH, style_block_step_ok, Hst. }
  destruct (fold_left (style_block_step properties) ms ∅ !! prop) as [v|] eqn:E; simpl;
    [|discriminate].
  intros [= <-]. destruct (Hok _ _ E) as (Hne & Hnd & Hin).
  split; [destruct v; [contradiction | discriminate]|].
  split; [apply firstn_le_length|]. split; [apply NoDup_firstn', Hnd | exact Hin].
Qed.

(** * Claims *)

(** C1 (code_bug): a stored value 0 never absorbs a value within the
    tolerance: [target.find] returns the stored 0, which is falsy, so
    [!existing] holds and the value is pushed.  Merging [padding:0] twice
    stores 0 twice; merging [padding:0] then [padding:1px] stores 0 and 1,
    although the spacing tolerance is 2. *)
Theorem merge_spacing_zero_not_absorbed :
  p_num (merge_all empty_profile [extractPaywallPatterns doc_padding0;
                                  extractPaywallPatterns doc_padding0]) spacing = [0; 0]%Q /\
  p_num (merge_all empty_profile [extractPaywallPatterns doc_padding0;
                                  extractPaywallPatterns doc_padding1]) spacing = [0; 1]%Q.
Proof. split; vm_compute; reflexivity. Qed.

(** C2 (counterexample): a button padding merged from a first document is
    not kept once a second document gives another button padding. *)
Lemma component_styles_not_unioned :
  (p_comp (merge_all empty_profile [extractPaywallPatterns (doc_button_padding "8px");
                                    extractPaywallPatterns (doc_button_padding "12px")])
     !! "buttons") ≫= (fun cm => cm !! "padding") <> Some ["8px"; "12px"].
Proof. vm_compute. congruence. Qed.

(** C2 (amended): after a merge, for every component present in the
    snapshot, each property the snapshot gives has exactly the snapshot's
    list (the stored list is replaced, as [Object.assign] does), and every
    other stored property of that component keeps its previous list; a
    component absent from the snapshot is unchanged. *)
Theorem merge_component_styles_overwrite (p : profile) (s : snapshot) :
  (forall (comp : string) (m : gmap string (list string)),
     s_comp s !! comp = Some m ->
     exists m', p_comp (mergePaywallPatterns p s) !! comp = Some m' /\
       forall prop, m' !! prop = match m !! prop with
                                 | Some v => Some v
                                 | None => (p_comp p !! comp) ≫= (fun cm => cm !! prop)
                                 end) /\
  (forall comp : string,
     s_comp s !! comp = None -> p_comp (mergePaywallPatterns p s) !! comp = p_comp p !! comp).
Proof.
  split.
  - intros comp m Hm. simpl. unfold merge_components. rewrite lookup_union_with, Hm.
    destruct (p_comp p !! comp) as [old|]; simpl; eexists; split; try reflexivity;
      intros prop.
    + rewrite lookup_union. destruct (m !! prop), (old !! prop); reflexivity.
    + destruct (m !! prop); reflexivity.
  - intros comp Hn. simpl. unfold merge_components. rewrite lookup_union_with, Hn.
    destruct (p_comp p !! comp); reflexivity.
Qed.

Lemma merge_component_styles_overwrite_witness :
  s_comp (extractPaywallPatterns (doc_button_padding "12px")) !! "buttons"
    = Some {[ "padding" := ["12px"] ]} /\
  s_comp (extractPaywallPatterns (doc_button_padding "12px")) !! "cards" = None /\
  exists m', p_comp (mergePaywallPatterns
                       (merge_all empty_profile [extractPaywallPatterns (doc_button_padding "8px")])
                       (extractPaywallPatterns (doc_button_padding "12px"))) !! "buttons" = Some m' /\
    forall prop, m' !! prop =
      match ({[ "padding" := ["12px"] ]} : gmap string (list string)) !! prop with
      | Some v => Some v
      | None => (p_comp (merge_all empty_profile [extractPaywallPatterns (doc_button_padding "8px")])
                   !! "buttons") ≫= (fun cm => cm !! prop)
      end.
Proof.
  assert (H1 : s_comp (extractPaywallPatterns (doc_button_padding "12px")) !! "buttons"
               = Some {[ "padding" := ["12px"] ]}) by (vm_compute; reflexivity).
  assert (H2 : s_comp (extractPaywallPatterns (doc_button_padding "12px")) !! "cards" = None)
    by (vm_compute; reflexivity).
  split; [exact H1|]. split; [exact H2|].
  exact (proj1 (merge_component_styles_overwrite
                  (merge_all empty_profile [extractPaywallPatterns (doc_button_padding "8px")])
                  (extractPaywallPatterns (doc_button_padding "12px"))) "buttons" _ H1).
Defined.



(** C4 (code_bug): [width: 50%] and [height: 100vh] are not excluded: the
    filter tests the capture [match[1]], which holds only the digits. *)
Theorem width_percent_not_excluded :
  s_num (extractPaywallPatterns doc_percent_sizes) widths = [50]%Q /\
  s_num (extractPaywallPatterns doc_percent_sizes) heights = [100]%Q.
Proof. split; vm_compute; reflexivity. Qed.

(** C5 (code_bug): component styles are read from the first [<style>]
    element only; the same button rule contributes when it is in the first
    element and not when it is in the second. *)
Theorem component_styles_first_style_only :
  s_comp (extractPaywallPatterns doc_button_second_style) = ∅ /\
  s_comp (extractPaywallPatterns (rev doc_button_second_style))
    = {[ "buttons" := {[ "padding" := ["8px"] ]} ]}.
Proof. split; vm_compute; reflexivity. Qed.

(** C6: every stored list is within its category's capacity after any
    sequence of merges from the empty profile; sixty documents with one new
    colour each leave exactly 40 stored colours. *)
Theorem merge_capacity_bounded :
  (forall (ss : list snapshot) (c : numcat),
     List.length (p_num (merge_all empty_profile ss) c) <= merge_cap_num c) /\
  (forall (ss : list snapshot) (c : strcat),
     List.length (p_str (merge_all empty_profile ss) c) <= merge_cap_str c) /\
  (forall (ss : list snapshot) (cs : list string),
     List.length cs = 60 ->
     map (fun s => s_str s colors) ss = map (fun x => [x]) cs ->
     NoDup cs ->
     List.length (p_str (merge_all empty_profile ss) colors) = 40).
Proof.
  pose proof (fun ss => merge_all_within_capacity empty_profile ss empty_within_capacity) as Hcap.
  split; [intros ss c; apply (Hcap ss)|]. split; [intros ss c; apply (Hcap ss)|].
  intros ss cs Hlen Hmap Hnd.
  rewrite (colors_after_fresh ss empty_profile []); [| reflexivity |].
  - simpl. rewrite Hmap, concat_singletons, length_firstn, Hlen. reflexivity.
  - simpl. rewrite Hmap, concat_singletons. exact Hnd.
Qed.

Lemma merge_capacity_bounded_witness :
  List.length sixty_colors = 60 /\
  map (fun s => s_str s colors) (map color_snapshot sixty_colors) = map (fun x => [x]) sixty_colors /\
  NoDup sixty_colors /\
  List.length (p_str (merge_all empty_profile (map color_snapshot sixty_colors)) colors) = 40.
Proof.
  assert (H1 : List.length sixty_colors = 60) by reflexivity.
  assert (H2 : map (fun s => s_str s colors) (map color_snapshot sixty_colors)
               = map (fun x => [x]) sixty_colors) by (vm_compute; reflexivity).
  assert (H3 : NoDup sixty_colors) by (apply (bool_decide_unpack _); vm_compute; exact I).
  split; [exact H1|]. split; [exact H2|]. split; [exact H3|].
  exact (proj2 (proj2 merge_capacity_bounded) _ _ H1 H2 H3).
Defined.

(** C7: after a merge, every numeric category's stored list is sorted
    ascending, and it is the accumulated list sorted and cut at the
    capacity, so every dropped value is at least every kept one. *)
Theorem merge_numeric_sorted_drops_largest (p : profile) (s : snapshot) (c : numcat) :
  let l := p_num (mergePaywallPatterns p s) c in
  Sorted Qle l /\
  exists full, Permutation full (mergeArray_pushes_num (p_num p c) (s_num s c) (merge_tol c)) /\
    Sorted Qle full /\ l = firstn (merge_cap_num c) full /\
    (forall x y, In x l -> In y (skipn (merge_cap_num c) full) -> (x <= y)%Q).
Proof. exact (mergeArray_num_spec (p_num p c) (s_num s c) (merge_cap_num c) (merge_tol c)). Qed.

(** C8: each merge adds exactly 1 to [count], so [count] is the number of
    merges since the last reset; reset gives count 0 and empty lists. *)
Theorem merge_count_and_reset :
  (forall (p : profile) (ss : list snapshot), count (merge_all p ss) = count p + List.length ss) /\
  (forall (p : profile) (ss : list snapshot), count (merge_all (reset p) ss) = List.length ss) /\
  (forall (p : profile),
     count (reset p) = 0 /\ (forall c, p_num (reset p) c = []) /\ (forall c, p_str (reset p) c = []) /\
     p_layouts (reset p) = [] /\ p_common (reset p) = ∅ /\ p_comp (reset p) = ∅).
Proof.
  split; [apply merge_all_count|]. split.
  - intros p ss. rewrite merge_all_count. reflexivity.
  - intros p. repeat split.
Qed.

(** C9 (counterexample): a document with a [<button>] and no style at all
    has a non-zero button count. *)
Lemma no_style_layouts_nonzero :
  style_elements doc_one_button = [] /\ inline_styles doc_one_button = [] /\
  buttons (s_layouts (extractPaywallPatterns doc_one_button)) <> 0.
Proof. split; [reflexivity|]. split; [reflexivity|]. vm_compute. congruence. Qed.

Lemma collect_no_style (d : document) :
  style_elements d = [] -> inline_styles d = [] -> collect d = empty_patterns.
Proof.
  intros Hs Hi. unfold collect. rewrite Hs, Hi. simpl.
  unfold extractComponentStyles, extractSelectorStyles, first_style_text. rewrite Hs.
  vm_compute. reflexivity.
Qed.

Lemma count_matching_zero (d : document) (sel : element -> bool) :
  count_matching d sel = 0 <-> forall e, In e d -> sel e = false.
Proof.
  unfold count_matching. rewrite length_zero_iff_nil. split.
  - intros H e He. destruct (sel e) eqn:Ee; [|reflexivity]. exfalso.
    assert (Hf : e ∈ filter (fun x => sel x) d).
    { apply list_elem_of_filter. split; [rewrite Ee; exact I | apply list_elem_of_In, He]. }
    rewrite H in Hf. apply list_elem_of_In in Hf. destruct Hf.
  - intros H. destruct (filter (fun x => sel x) d) as [|x l] eqn:Ef; [reflexivity|]. exfalso.
    assert (Hx : x ∈ filter (fun x => sel x) d) by (rewrite Ef; left).
    apply list_elem_of_filter in Hx as [Hp Hin]. apply list_elem_of_In in Hin.
    revert Hp. rewrite (H x Hin). intros Hp. inversion Hp.
Qed.

(** C9 (amended): a document without [<style>] elements and [style]
    attributes gives empty category lists, empty [commonStyles] and
    [componentStyles]; each of its layout counts is zero exactly when no
    element of the document matches that selector group. *)
Theorem no_style_empty_snapshot (d : document) :
  style_elements d = [] -> inline_styles d = [] ->
  (forall c, s_num (extractPaywallPatterns d) c = []) /\
  (forall c, s_str (extractPaywallPatterns d) c = []) /\
  s_common (extractPaywallPatterns d) = ∅ /\
  s_comp (extractPaywallPatterns d) = ∅ /\
  (buttons (s_layouts (extractPaywallPatterns d)) = 0 <-> forall e, In e d -> button_sel e = false) /\
  (cards (s_layouts (extractPaywallPatterns d)) = 0 <-> forall e, In e d -> card_sel e = false) /\
  (containers (s_layouts (extractPaywallPatterns d)) = 0 <->
     forall e, In e d -> container_sel e = false) /\
  (inputs (s_layouts (extractPaywallPatterns d)) = 0 <-> forall e, In e d -> input_sel e = false) /\
  (modals (s_layouts (extractPaywallPatterns d)) = 0 <-> forall e, In e d -> modal_sel e = false).
Proof.
  intros Hs Hi. unfold extractPaywallPatterns. rewrite (collect_no_style d Hs Hi).
  split; [intros []; reflexivity|]. split; [intros []; reflexivity|].
  split; [reflexivity|]. split; [reflexivity|].
  simpl. repeat split; apply count_matching_zero.
Qed.

Lemma no_style_empty_snapshot_witness :
  style_elements doc_tab_button = [] /\ inline_styles doc_tab_button = [] /\
  buttons (s_layouts (extractPaywallPatterns doc_tab_button)) = 1 /\
  (forall c, s_num (extractPaywallPatterns doc_tab_button) c = []) /\
  (forall c, s_str (extractPaywallPatterns doc_tab_button) c = []) /\
  s_common (extractPaywallPatterns doc_tab_button) = ∅ /\
  s_comp (extractPaywallPatterns doc_tab_button) = ∅ /\
  (buttons (s_layouts (extractPaywallPatterns doc_tab_button)) = 0 <->
     forall e, In e doc_tab_button -> button_sel e = false) /\
  (cards (s_layouts (extractPaywallPatterns doc_tab_button)) = 0 <->
     forall e, In e doc_tab_button -> card_sel e = false) /\
  (containers (s_layouts (extractPaywallPatterns doc_tab_button)) = 0 <->
     forall e, In e doc_tab_button -> container_sel e = false) /\
  (inputs (s_layouts (extractPaywallPatterns doc_tab_button)) = 0 <->
     forall e, In e doc_tab_button -> input_sel e = false) /\
  (modals (s_layouts (extractPaywallPatterns doc_tab_button)) = 0 <->
     forall e, In e doc_tab_button -> modal_sel e = false).
Proof.
  assert (Hs : style_elements doc_tab_button = []) by reflexivity.
  assert (Hi : inline_styles doc_tab_button = []) by reflexivity.
  assert (Hb : buttons (s_layouts (extractPaywallPatterns doc_tab_button)) = 1)
    by (vm_compute; reflexivity).
  exact (conj Hs (conj Hi (conj Hb (no_style_empty_snapshot doc_tab_button Hs Hi)))).
Defined.

(** C10 (code_bug): [font-weight: bolder] is matched by the alternative
    [bold], which comes first, and stored as 700; [lighter] is dropped. *)
Theorem font_weight_bolder_as_bold :
  s_num (extractPaywallPatterns doc_bolder) fontWeights = [700]%Q /\
  s_num (extractPaywallPatterns doc_lighter) fontWeights = [].
Proof. split; vm_compute; reflexivity. Qed.

(** * Further properties: theorems *)

(** The layout history: from any stored history of at most 50 entries, a
    sequence of merges leaves exactly the last 50 entries of the old
    history followed by the layouts of the merged snapshots, in order. *)
Theorem merge_layouts_last_50 (p : profile) (ss : list snapshot) :
  List.length (p_layouts p) <= 50 ->
  p_layouts (merge_all p ss) = lastn 50 (p_layouts p ++ map s_layouts ss).
Proof.
  revert p. induction ss as [|s ss IH]; intros p Hp; simpl.
  - rewrite app_nil_r. unfold lastn. replace (List.length (p_layouts p) - 50) with 0 by lia.
    reflexivity.
  - rewrite IH; simpl.
    + rewrite push_layout_lastn, lastn_app_lastn, <- app_assoc. reflexivity.
    + rewrite push_layout_lastn. apply length_lastn.
Qed.

Lemma merge_layouts_last_50_witness :
  List.length (p_layouts (merge_all empty_profile (repeat (extractPaywallPatterns doc_one_button) 50)))
    <= 50 /\
  p_layouts (merge_all (merge_all empty_profile (repeat (extractPaywallPatterns doc_one_button) 50))
               [extractPaywallPatterns doc_padding1; extractPaywallPatterns doc_one_button])
  = lastn 50 (p_layouts (merge_all empty_profile (repeat (extractPaywallPatterns doc_one_button) 50))
              ++ map s_layouts [extractPaywallPatterns doc_padding1;
                                extractPaywallPatterns doc_one_button]).
Proof.
  assert (H : List.length (p_layouts (merge_all empty_profile
                (repeat (extractPaywallPatterns doc_one_button) 50))) <= 50)
    by (vm_compute; lia).
  exact (conj H (merge_layouts_last_50 _ _ H)).
Defined.

(** String categories never lose a stored value while within capacity: a
    merge appends to the stored list, and what it appends are values of the
    snapshot that were not stored. *)
Theorem merge_strings_append_only (p : profile) (s : snapshot) (c : strcat) :
  List.length (p_str p c) <= merge_cap_str c ->
  exists extra, p_str (mergePaywallPatterns p s) c = p_str p c ++ extra /\
    forall x, In x extra -> In x (s_str s c) /\ ~ In x (p_str p c).
Proof.
  intros Hlen. simpl. unfold mergeArray_str.
  destruct (push_str_app (s_str s c) (p_str p c)) as (extra & -> & Hx).
  exists (firstn (merge_cap_str c - List.length (p_str p c)) extra). split.
  - rewrite firstn_app, firstn_all2 by exact Hlen. reflexivity.
  - intros x Hin. apply Hx, (in_firstn _ _ _ Hin).
Qed.

Lemma merge_strings_append_only_witness :
  List.length (p_str (merge_all empty_profile [color_snapshot "#fff"]) colors) <= merge_cap_str colors /\
  exists extra,
    p_str (mergePaywallPatterns (merge_all empty_profile [color_snapshot "#fff"])
             (color_snapshot "#000")) colors
    = p_str (merge_all empty_profile [color_snapshot "#fff"]) colors ++ extra /\
    forall x, In x extra -> In x (s_str (color_snapshot "#000") colors) /\
                            ~ In x (p_str (merge_all empty_profile [color_snapshot "#fff"]) colors).
Proof.
  assert (H : List.length (p_str (merge_all empty_profile [color_snapshot "#fff"]) colors)
              <= merge_cap_str colors) by (vm_compute; lia).
  split; [exact H | exact (merge_strings_append_only _ (color_snapshot "#000") colors H)].
Defined.

(** Merging the same snapshot twice in a row leaves every string category
    as the first merge left it. *)
Theorem merge_strings_idempotent (p : profile) (s : snapshot) (c : strcat) :
  p_str (mergePaywallPatterns (mergePaywallPatterns p s) s) c = p_str (mergePaywallPatterns p s) c.
Proof.
  simpl. unfold mergeArray_str.
  set (F := fold_left mergeArray_push_str (s_str s c) (p_str p c)).
  destruct (le_lt_dec (List.length F) (merge_cap_str c)) as [Hle|Hlt].
  - rewrite (firstn_all2 F Hle). rewrite push_str_present; [apply firstn_all2, Hle|].
    intros x Hx. apply in_push_str. left. exact Hx.
  - destruct (push_str_app (s_str s c) (firstn (merge_cap_str c) F)) as (extra & -> & _).
    rewrite firstn_app, length_firstn.
    replace (merge_cap_str c - Nat.min (merge_cap_str c) (List.length F)) with 0 by lia.
    rewrite firstn_firstn, Nat.min_id, app_nil_r. reflexivity.
Qed.

(** Every string category of the profile, built by merges from the empty
    profile, is free of duplicates. *)
Theorem merge_strings_distinct (ss : list snapshot) (c : strcat) :
  NoDup (p_str (merge_all empty_profile ss) c).
Proof.
  assert (H : forall p, (forall c, NoDup (p_str p c)) -> forall c, NoDup (p_str (merge_all p ss) c)).
  { induction ss as [|s ss IH]; intros p Hp; simpl; [exact Hp|].
    apply IH. intros c'. simpl. unfold mergeArray_str. apply NoDup_firstn', NoDup_push_str, Hp. }
  apply H. intros c'. constructor.
Qed.

(** A merge invents no value: every value of a category after the merge
    was already stored or comes from the snapshot. *)
Theorem merge_values_from_inputs (p : profile) (s : snapshot) :
  (forall c x, In x (p_num (mergePaywallPatterns p s) c) -> In x (p_num p c) \/ In x (s_num s c)) /\
  (forall c x, In x (p_str (mergePaywallPatterns p s) c) -> In x (p_str p c) \/ In x (s_str s c)).
Proof.
  split; intros c x H; simpl in H; [apply mergeArray_num_in in H | apply mergeArray_str_in in H];
    exact H.
Qed.

(** When no merged snapshot holds the value 0 in a numeric category, the
    stored values of that category, built from the empty profile, are
    pairwise at least the category's tolerance apart. *)
Theorem merge_numeric_separated (ss : list snapshot) (c : numcat) :
  (forall s x, In s ss -> In x (s_num s c) -> ~ (x == 0)%Q) ->
  separated (merge_tol c) (p_num (merge_all empty_profile ss) c).
Proof.
  intros Hnz.
  assert (H : forall p, List.Forall (fun x => ~ (x == 0)%Q) (p_num p c) -> separated (merge_tol c) (p_num p c) ->
            separated (merge_tol c) (p_num (merge_all p ss) c)).
  { induction ss as [|s ss IH]; intros p Hp Hs; simpl; [exact Hs|].
    assert (Hsrc : List.Forall (fun x => ~ (x == 0)%Q) (s_num s c)).
    { apply List.Forall_forall. intros x Hx. apply (Hnz s x); [left; reflexivity | exact Hx]. }
    destruct (mergeArray_num_separated (p_num p c) (s_num s c) c Hsrc Hp Hs) as [Hp' Hs'].
    apply IH; [intros s' x Hs'' Hx; apply (Hnz s' x); [right; exact Hs'' | exact Hx] | exact Hp' | exact Hs']. }
  apply H; constructor.
Qed.

Lemma merge_numeric_separated_witness :
  (forall s x, In s [extractPaywallPatterns doc_padding1; extractPaywallPatterns doc_padding2] ->
               In x (s_num s spacing) -> ~ (x == 0)%Q) /\
  separated (merge_tol spacing)
    (p_num (merge_all empty_profile [extractPaywallPatterns doc_padding1;
                                     extractPaywallPatterns doc_padding2]) spacing).
Proof.
  assert (H : forall s x, In s [extractPaywallPatterns doc_padding1; extractPaywallPatterns doc_padding2] ->
                          In x (s_num s spacing) -> ~ (x == 0)%Q).
  { intros s x Hs Hx. simpl in Hs.
    destruct Hs as [<-|[<-|[]]]; vm_compute in Hx; destruct Hx as [<-|[]];
      intros H0; compute in H0; discriminate. }
  split; [exact H | exact (merge_numeric_separated _ spacing H)].
Defined.

(** Every numeric category of a snapshot is sorted in ascending order. *)
Theorem snapshot_numbers_sorted (d : document) (c : numcat) :
  Sorted Qle (s_num (extractPaywallPatterns d) c).
Proof. simpl. unfold numeric_output. apply firstn_sorted, qsort_sorted. Qed.

(** The snapshot keeps only positive font sizes and line heights, and
    opacities between 0 and 1. *)
Theorem snapshot_numbers_in_range (d : document) (x : Q) :
  (In x (s_num (extractPaywallPatterns d) fontSizes) -> (0 < x)%Q) /\
  (In x (s_num (extractPaywallPatterns d) lineHeights) -> (0 < x)%Q) /\
  (In x (s_num (extractPaywallPatterns d) opacities) -> (0 <= x)%Q /\ (x <= 1)%Q).
Proof.
  assert (Hk : forall c, In x (s_num (extractPaywallPatterns d) c) -> snapshot_keep c x = true).
  { intros c H. simpl in H. unfold numeric_output in H. apply in_firstn in H.
    apply (Permutation_in _ (qsort_perm _)) in H. apply list_elem_of_In, list_elem_of_filter in H.
    destruct H as [HP _]. revert HP. case (snapshot_keep c x); [reflexivity | intros HP; inversion HP]. }
  split; [|split].
  - intros H. apply Hk in H. simpl in H. unfold qltb in H. apply negb_true_iff in H.
    apply Qnot_le_lt. intros Hle. apply Qle_bool_iff in Hle. congruence.
  - intros H. apply Hk in H. simpl in H. unfold qltb in H. apply negb_true_iff in H.
    apply Qnot_le_lt. intros Hle. apply Qle_bool_iff in Hle. congruence.
  - intros H. apply Hk in H. simpl in H. apply andb_true_iff in H as [H0 H1].
    split; apply Qle_bool_iff; assumption.
Qed.

(** No string category of a snapshot holds the same string twice. *)
Theorem snapshot_strings_distinct (d : document) (c : strcat) :
  NoDup (s_str (extractPaywallPatterns d) c).
Proof. simpl. unfold string_output. apply NoDup_firstn', collect_distinct. Qed.

(** The [componentStyles] of a snapshot has only the components [buttons],
    [cards] and [inputs]; each property of a component has between one and
    five distinct values. *)
Theorem snapshot_component_lists (d : document) (comp prop : string)
    (m : gmap string (list string)) (l : list string) :
  s_comp (extractPaywallPatterns d) !! comp = Some m -> m !! prop = Some l ->
  In comp ["buttons"; "cards"; "inputs"] /\ l <> [] /\ List.length l <= 5 /\ NoDup l.
Proof.
  intros Hc Hp. simpl in Hc. unfold collect, extractComponentStyles in Hc.
  apply set_component_lookup in Hc as [(-> & -> & _)|Hc].
  - destruct (selector_styles_ok _ _ _ _ _ Hp) as (? & ? & ? & _).
    split; [right; right; left; reflexivity|]. auto.
  - apply set_component_lookup in Hc as [(-> & -> & _)|Hc].
    + destruct (selector_styles_ok _ _ _ _ _ Hp) as (? & ? & ? & _).
      split; [right; left; reflexivity|]. auto.
    + apply set_component_lookup in Hc as [(-> & -> & _)|Hc].
      * destruct (selector_styles_ok _ _ _ _ _ Hp) as (? & ? & ? & _).
        split; [left; reflexivity|]. auto.
      * rewrite collect_fold_comp, lookup_empty in Hc. discriminate.
Qed.

Lemma snapshot_component_lists_witness :
  s_comp (extractPaywallPatterns (doc_button_padding "8px")) !! "buttons"
    = Some {[ "padding" := ["8px"] ]} /\
  ({[ "padding" := ["8px"] ]} : gmap string (list string)) !! "padding" = Some ["8px"] /\
  (In "buttons" ["buttons"; "cards"; "inputs"] /\ ["8px"] <> [] /\
   List.length ["8px"] <= 5 /\ NoDup ["8px"]).
Proof.
  assert (H1 : s_comp (extractPaywallPatterns (doc_button_padding "8px")) !! "buttons"
               = Some {[ "padding" := ["8px"] ]}) by (vm_compute; reflexivity).
  assert (H2 : ({[ "padding" := ["8px"] ]} : gmap string (list string)) !! "padding" = Some ["8px"])
    by (vm_compute; reflexivity).
  split; [exact H1|]. split; [exact H2|].
  exact (snapshot_component_lists _ _ _ _ _ H1 H2).
Defined.

(** * Lemmas on the Figma helpers *)

Lemma rmatch_star_eq (ic : bool) (r1 : re) (rest : chars) (c : caps) (k : chars -> caps -> mresult) :
  rmatch ic (RStar r1) rest c k = rmatch_star_loop ic r1 k (List.length rest) rest c.
Proof. reflexivity. Qed.

Lemma star_class_greedy (ic : bool) (p : ascii -> bool) (k : chars -> caps -> mresult)
    (xs r : chars) (c : caps) (n : nat) :
  List.length xs <= n -> forallb p xs = true ->
  match r with [] => True | y :: _ => p y = false end -> k r c <> None ->
  rmatch_star_loop ic (RClass p) k n (xs ++ r) c = k r c.
Proof.
  intros Hn Hxs Hr Hk. revert n Hn Hxs. induction xs as [|x xs IH]; intros n Hn Hxs.
  - destruct n as [|n]; [reflexivity|]. simpl.
    destruct r as [|y r]; [reflexivity|]. rewrite Hr. reflexivity.
  - destruct n as [|n]; [simpl in Hn; lia|]. simpl in Hxs. apply andb_true_iff in Hxs as [Hx Hxs].
    simpl app. change (rmatch_star_loop ic (RClass p) k (S n) (x :: xs ++ r) c) with
      (match rmatch ic (RClass p) (x :: xs ++ r) c (fun rest' c' => if List.length rest' <? List.length (x :: xs ++ r) then rmatch_star_loop ic (RClass p) k n rest' c' else None) with Some v => Some v | None => k (x :: xs ++ r) c end).
    cbn [rmatch]. rewrite Hx.
    replace (List.length (xs ++ r) <? List.length (x :: xs ++ r)) with true
      by (symmetry; apply Nat.ltb_lt; simpl; lia).
    rewrite IH by (simpl in Hn; lia || exact Hxs).
    destruct (k r c); [reflexivity | contradiction].
Qed.

Lemma rmatch_group (ic : bool) (n : nat) (r1 : re) (s : chars) (c : caps) (k : chars -> caps -> mresult) :
  rmatch ic (RGroup n r1) s c k = rmatch ic r1 s c (fun s' c' => k s' ((n, (s, s')) :: c')).
Proof. reflexivity. Qed.

Lemma rmatch_seq_class_cons (ic : bool) (p : ascii -> bool) (r2 : re) (x : ascii) (s : chars)
    (c : caps) (k : chars -> caps -> mresult) :
  rmatch ic (RSeq (RClass p) r2) (x :: s) c k = if p x then rmatch ic r2 s c k else None.
Proof. reflexivity. Qed.

Lemma figma_prefix_match (g : re) (kind s : chars) (c : caps) (k : chars -> caps -> mresult) :
  kind = s2c "file" \/ kind = s2c "design" ->
  rmatch false (seqs [slit "figma"; RChar "."; slit "com"; RChar "/"; alts [slit "file"; slit "design"];
                      RChar "/"; g]) (s2c "figma.com/" ++ kind ++ "/"%char :: s) c k
  = rmatch false g s c k.
Proof.
  intros [-> | ->]; simpl.
  - destruct (rmatch false g s c k); reflexivity.
  - reflexivity.
Qed.

Lemma exec_at_figma_not_f (x : ascii) (r : chars) :
  x <> "f"%char -> exec_at false figmaFileKeyRegex (x :: r) = None.
Proof.
  intros Hx. unfold exec_at, figmaFileKeyRegex. cbn [rmatch seqs slit lit list_ascii_of_string char_eq].
  replace (Ascii.eqb "f" x) with false; [reflexivity|].
  symmetry. apply Ascii.eqb_neq. congruence.
Qed.

Lemma scan_figma_skip (pre u : chars) (n : nat) :
  ~ In "f"%char pre ->
  scan false figmaFileKeyRegex (List.length pre + n) (pre ++ u) = scan false figmaFileKeyRegex n u.
Proof.
  induction pre as [|x pre IH]; intros Hpre; [reflexivity|].
  simpl. rewrite exec_at_figma_not_f by (intros ->; apply Hpre; left; reflexivity).
  apply IH. intros H. apply Hpre. right. exact H.
Qed.

Lemma first_found_some {A B} (f : A -> option B) (l : list A) (y : B) :
  first_found f l = Some y -> exists x, In x l /\ f x = Some y.
Proof.
  induction l as [|x l IH]; simpl; [discriminate|].
  destruct (f x) eqn:E.
  - intros [= <-]. exists x. split; [left; reflexivity | exact E].
  - intros H. destruct (IH H) as (x' & Hin & Hx). exists x'. split; [right; exact Hin | exact Hx].
Qed.

Lemma first_found_complete {A B} (f : A -> option B) (l : list A) (x : A) (y : B) :
  In x l -> f x = Some y -> exists y', first_found f l = Some y'.
Proof.
  induction l as [|x' l IH]; simpl; [intros []|].
  intros [<-|Hin] Hx.
  - rewrite Hx. exists y. reflexivity.
  - destruct (f x'); [eexists; reflexivity | apply IH; assumption].
Qed.

Lemma image_loop_length (f : fnode -> nat -> list image_info) (k : nat) (cs : list fnode)
    (acc : list image_info) :
  (forall c, In c cs -> forall k', 1 <= k' -> List.length (f c k') <= k') ->
  List.length acc < k -> List.length (image_loop f k cs acc) <= k.
Proof.
  revert acc. induction cs as [|c cs IH]; intros acc Hf Hacc; simpl; [lia|].
  assert (Hc : List.length (f c (k - List.length acc)) <= k - List.length acc)
    by (apply Hf; [left; reflexivity | lia]).
  destruct (k <=? List.length (acc ++ f c (k - List.length acc))) eqn:E.
  - rewrite length_app. lia.
  - apply Nat.leb_gt in E. apply IH; [intros c' Hc'; apply Hf; right; exact Hc' | exact E].
Qed.

Lemma image_loop_in (f : fnode -> nat -> list image_info) (k : nat) (cs : list fnode)
    (acc : list image_info) (e : image_info) :
  In e (image_loop f k cs acc) -> In e acc \/ exists c k', In c cs /\ In e (f c k').
Proof.
  revert acc. induction cs as [|c cs IH]; intros acc H; simpl in H; [left; exact H|].
  assert (Happ : In e (acc ++ f c (k - List.length acc)) ->
                 In e acc \/ exists c' k', In c' (c :: cs) /\ In e (f c' k')).
  { intros H'. apply in_app_or in H' as [H'|H']; [left; exact H'|].
    right. exists c, (k - List.length acc). split; [left; reflexivity | exact H']. }
  destruct (k <=? List.length (acc ++ f c (k - List.length acc))); [apply Happ, H|].
  destruct (IH _ H) as [H'|(c' & k' & Hc' & He)]; [apply Happ, H'|].
  right. exists c', k'. split; [right; exact Hc' | exact He].
Qed.

Lemma fold_sections_in (f : fnode -> list section -> list section) (Q : section -> Prop)
    (cs : list fnode) (secs : list section) (s : section) :
  (forall c, In c cs -> forall secs s, In s (f c secs) -> In s secs \/ Q s) ->
  In s (fold_left (fun secs c => f c secs) cs secs) -> In s secs \/ Q s.
Proof.
  revert secs. induction cs as [|c cs IH]; intros secs Hf H; simpl in H; [left; exact H|].
  destruct (IH _ (fun c' Hc' => Hf c' (or_intror Hc')) H) as [H'|H']; [|right; exact H'].
  apply (Hf c (or_introl eq_refl) _ _ H').
Qed.

(** * Further properties of the Figma helpers: theorems *)

(** [findNodeById]: a node it returns carries the target id and lies in
    the searched tree; and whenever some node of the tree carries the
    target id, the search returns a node. *)
Theorem findNodeById_spec (n : fnode) (targetId : string) :
  (forall m, findNodeById n targetId = Some m -> f_id m = Some targetId /\ subtree m n) /\
  ((exists m, subtree m n /\ f_id m = Some targetId) -> exists m, findNodeById n targetId = Some m).
Proof.
  revert n. apply fnode_ind'. intros n IH.
  destruct n as [id name ty x y w h bb fills ch]. simpl in IH |- *.
  destruct (match id with Some i => String.eqb i targetId | None => false end) eqn:Eid.
  - split.
    + intros m [= <-]. split; [|apply sub_here]. simpl.
      destruct id as [i|]; [apply String.eqb_eq in Eid; congruence | discriminate].
    + intros _. eexists. reflexivity.
  - assert (Hroot : id <> Some targetId).
    { intros ->. rewrite String.eqb_refl in Eid. discriminate. }
    destruct ch as [cs|].
    + rewrite List.Forall_forall in IH. split.
      * intros m Hm. apply first_found_some in Hm as (c & Hc & Hfc).
        destruct (proj1 (IH c Hc) m Hfc) as [Hid Hsub]. split; [exact Hid|].
        eapply sub_child; [reflexivity | exact Hc | exact Hsub].
      * intros (m & Hsub & Hid). inversion Hsub as [n0 Heq|n0 cs0 c m0 Hch Hc Hsub' Heq1 Heq2]; subst.
        -- simpl in Hid. contradiction.
        -- simpl in Hch. injection Hch as <-.
           destruct (proj2 (IH c Hc) (ex_intro _ m (conj Hsub' Hid))) as (m' & Hm').
           exact (first_found_complete _ _ _ _ Hc Hm').
    + split; [discriminate|].
      intros (m & Hsub & Hid). inversion Hsub as [n0 Heq|n0 cs0 c m0 Hch Hc Hsub' Heq1 Heq2]; subst.
      * simpl in Hid. contradiction.
      * simpl in Hch. discriminate.
Qed.

(** [findImageNodes]: with a budget of at least one node, the returned
    list never exceeds the budget. *)
Theorem findImageNodes_within_budget (n : fnode) (maxNodes depth : nat) :
  1 <= maxNodes -> List.length (findImageNodes n maxNodes depth) <= maxNodes.
Proof.
  revert n maxNodes depth. apply (fnode_ind' (fun n => forall maxNodes depth, 1 <= maxNodes ->
    List.length (findImageNodes n maxNodes depth) <= maxNodes)).
  intros n IH maxNodes depth Hk.
  destruct n as [id name ty x y w h bb fills ch]. cbn [findImageNodes].
  destruct (8 <? depth); [simpl; lia|].
  destruct (is_status_bar_name _); [simpl; lia|].
  set (own := match f_id _ with Some i => _ | None => [] end).
  assert (Hown : List.length own <= 1).
  { subst own. simpl. destruct id as [i|]; [|simpl; lia]. destruct (_ && _); simpl; lia. }
  destruct ch as [cs|]; [|lia].
  destruct ((List.length own <? maxNodes) && (depth <? 8)) eqn:E; [|lia].
  apply andb_true_iff in E as [E _]. apply Nat.ltb_lt in E.
  apply image_loop_length; [|exact E].
  simpl in IH. rewrite List.Forall_forall in IH. intros c Hc k' Hk'. apply IH; assumption.
Qed.

Lemma findImageNodes_within_budget_witness :
  1 <= 1 /\ List.length (findImageNodes figma_sample 1 0) <= 1.
Proof. split; [lia | apply (findImageNodes_within_budget figma_sample 1 0); lia]. Defined.

(** [findImageNodes]: every returned entry describes a node with an id
    that the image test accepts, reached from the root through nodes none
    of whose lower-cased names is a status-bar name. *)
Theorem findImageNodes_sound (n : fnode) (maxNodes depth : nat) (e : image_info) :
  In e (findImageNodes n maxNodes depth) ->
  exists m i, reach (fun x => is_status_bar_name (node_name_lower x) = false) m n /\
    f_id m = Some i /\ is_image_node m (node_name_lower m) = true /\ e = image_of m i.
Proof.
  revert n maxNodes depth. apply (fnode_ind' (fun n => forall maxNodes depth, In e (findImageNodes n maxNodes depth) ->
    exists m i, reach (fun x => is_status_bar_name (node_name_lower x) = false) m n /\
    f_id m = Some i /\ is_image_node m (node_name_lower m) = true /\ e = image_of m i)).
  intros n IH maxNodes depth.
  destruct n as [id name ty x y w h bb fills ch]. cbn [findImageNodes].
  set (n := FNode id name ty x y w h bb fills ch) in *.
  destruct (8 <? depth); [intros []|].
  destruct (is_status_bar_name (to_lower (js_or_str (f_name n) ""))) eqn:Es; [intros []|].
  assert (Hown : In e (match f_id n with
                       | Some i => if is_image_node n (to_lower (js_or_str (f_name n) "")) && negb (String.eqb i "")
                                   then [image_of n i] else []
                       | None => [] end) ->
                 exists m i, reach (fun x => is_status_bar_name (node_name_lower x) = false) m n /\
                   f_id m = Some i /\ is_image_node m (node_name_lower m) = true /\ e = image_of m i).
  { destruct (f_id n) as [i|] eqn:Ei; [|intros []].
    destruct (is_image_node n _ && negb (String.eqb i "")) eqn:Eimg; [|intros []].
    intros [<-|[]]. apply andb_true_iff in Eimg as [Eimg _].
    exists n, i. split; [apply reach_here; exact Es|]. split; [exact Ei|]. split; [exact Eimg | reflexivity]. }
  simpl in IH. destruct ch as [cs|]; [|exact Hown].
  destruct (_ && _); [|exact Hown].
  intros H. apply image_loop_in in H as [H|(c & k' & Hc & He)]; [apply Hown, H|].
  rewrite List.Forall_forall in IH. destruct (IH c Hc k' (S depth) He) as (m & i & Hr & Hid & Himg & ->).
  exists m, i. split; [|split; [exact Hid | split; [exact Himg | reflexivity]]].
  eapply reach_child; [exact Es | reflexivity | exact Hc | exact Hr].
Qed.

Lemma findImageNodes_sound_witness :
  In (image_of (figma_leaf "2:1" "Icon Star" "VECTOR") "2:1") (findImageNodes figma_sample 20 0) /\
  exists m i, reach (fun x => is_status_bar_name (node_name_lower x) = false) m figma_sample /\
    f_id m = Some i /\ is_image_node m (node_name_lower m) = true /\
    image_of (figma_leaf "2:1" "Icon Star" "VECTOR") "2:1" = image_of m i.
Proof.
  assert (H : In (image_of (figma_leaf "2:1" "Icon Star" "VECTOR") "2:1") (findImageNodes figma_sample 20 0))
    by (vm_compute; left; reflexivity).
  exact (conj H (findImageNodes_sound figma_sample 20 0 _ H)).
Defined.

(** [identifySections] called from the root ([depth = 0]): every section
    it records has a depth between 1 and 5 and is a FRAME, COMPONENT or
    GROUP node. *)
Theorem identifySections_depths (n : fnode) (s : section) :
  In s (identifySections n 0 []) ->
  1 <= sec_depth s <= 5 /\ In (sec_type s) [Some "FRAME"; Some "COMPONENT"; Some "GROUP"].
Proof.
  set (Q := fun s => 1 <= sec_depth s <= 5 /\ In (sec_type s) [Some "FRAME"; Some "COMPONENT"; Some "GROUP"]).
  assert (H : forall n depth secs s, depth <= 5 -> In s (identifySections n depth secs) -> In s secs \/ Q s).
  { apply (fnode_ind' (fun n => forall depth secs s, depth <= 5 ->
             In s (identifySections n depth secs) -> In s secs \/ Q s)).
    intros nd IH depth secs s0 Hd.
    destruct nd as [id name ty x y w h bb fills ch]. cbn [identifySections].
    set (nd := FNode id name ty x y w h bb fills ch) in *.
    destruct (6 <? depth) eqn:E6; [intros H; left; exact H|].
    set (secs' := if (type_is nd "FRAME" || type_is nd "COMPONENT" || type_is nd "GROUP") &&
                     (1 <=? depth) && is_major_section nd (to_lower (js_or_str (f_name nd) ""))
                  then secs ++ [section_of nd depth secs] else secs).
    assert (Hsecs : In s0 secs' -> In s0 secs \/ Q s0).
    { subst secs'. destruct (_ && _ && _) eqn:Ec; [|intros H; left; exact H].
      intros H. apply in_app_or in H as [H|[<-|[]]]; [left; exact H|right].
      apply andb_true_iff in Ec as [Ec _]. apply andb_true_iff in Ec as [Ety Ed].
      apply Nat.leb_le in Ed. subst nd. unfold Q, section_of, type_is in *. simpl in *. split; [lia|].
      destruct ty as [t|]; [|discriminate].
      apply orb_true_iff in Ety as [Ety|Ety]; [apply orb_true_iff in Ety as [Ety|Ety]|];
        apply String.eqb_eq in Ety; subst t; simpl; tauto. }
    simpl in IH. destruct ch as [cs|]; [|exact Hsecs].
    destruct (depth <? 5) eqn:E5; [|exact Hsecs].
    apply Nat.ltb_lt in E5. intros H.
    apply (fold_sections_in (fun c secs => identifySections c (S depth) secs) Q) in H as [H|H];
      [apply Hsecs, H | right; exact H|].
    rewrite List.Forall_forall in IH. intros c Hc secs0 s1 Hs1. apply (IH c Hc (S depth) secs0 s1); [lia | exact Hs1]. }
  intros Hs. destruct (H n 0 [] s (Nat.le_0_l 5) Hs) as [[]|HQ]. exact HQ.
Qed.

Lemma identifySections_depths_witness :
  In (section_of figma_hero 1 []) (identifySections figma_sample 0 []) /\
  1 <= sec_depth (section_of figma_hero 1 []) <= 5 /\
  In (sec_type (section_of figma_hero 1 [])) [Some "FRAME"; Some "COMPONENT"; Some "GROUP"].
Proof.
  assert (H : In (section_of figma_hero 1 []) (identifySections figma_sample 0 []))
    by (vm_compute; left; reflexivity).
  exact (conj H (identifySections_depths figma_sample _ H)).
Defined.

(** [extractFigmaFileKey]: a URL made of a prefix without the letter f,
    then [figma.com/file/] or [figma.com/design/], then a non-empty
    alphanumeric key, then text not starting with an alphanumeric
    character, yields that key. *)
Theorem extractFigmaFileKey_roundtrip (pre kind key rest : chars) :
  ~ In "f"%char pre ->
  kind = s2c "file" \/ kind = s2c "design" ->
  key <> [] -> forallb is_alnum key = true ->
  match rest with [] => True | y :: _ => is_alnum y = false end ->
  extractFigmaFileKey (pre ++ s2c "figma.com/" ++ kind ++ "/"%char :: key ++ rest) = Some key.
Proof.
  intros Hpre Hkind Hkey Halnum Hrest.
  set (u := s2c "figma.com/" ++ kind ++ "/"%char :: key ++ rest).
  assert (Hexec : exec_at false figmaFileKeyRegex u = Some (rest, [(1, (key ++ rest, rest))])).
  { unfold exec_at, u, figmaFileKeyRegex. rewrite figma_prefix_match by exact Hkind.
    destruct key as [|x key]; [contradiction|]. simpl in Halnum. apply andb_true_iff in Halnum as [Hx Hk].
    unfold plus. rewrite rmatch_group. simpl app. rewrite rmatch_seq_class_cons, Hx, rmatch_star_eq.
    rewrite star_class_greedy; [reflexivity | rewrite length_app; lia | exact Hk | exact Hrest | discriminate]. }
  unfold extractFigmaFileKey, exec_first, matchAll.
  rewrite length_app. replace (S (List.length pre + List.length u)) with (List.length pre + S (List.length u)) by lia.
  rewrite scan_figma_skip by exact Hpre. simpl. rewrite Hexec. simpl.
  unfold grp1, grp, group. simpl. unfold substring_between.
  rewrite length_app. replace (List.length key + List.length rest - List.length rest) with (List.length key) by lia.
  rewrite firstn_app, firstn_all, Nat.sub_diag. simpl. rewrite app_nil_r. reflexivity.
Qed.

Lemma extractFigmaFileKey_roundtrip_witness :
  ~ In "f"%char (s2c "https://www.") /\
  (s2c "design" = s2c "file" \/ s2c "design" = s2c "design") /\
  s2c "AbC123" <> [] /\ forallb is_alnum (s2c "AbC123") = true /\
  match s2c "/Title" with [] => True | y :: _ => is_alnum y = false end /\
  extractFigmaFileKey (s2c "https://www." ++ s2c "figma.com/" ++ s2c "design" ++ "/"%char :: s2c "AbC123" ++ s2c "/Title")
  = Some (s2c "AbC123").
Proof.
  assert (H1 : ~ In "f"%char (s2c "https://www.")) by (simpl; intuition discriminate).
  assert (H2 : s2c "design" = s2c "file" \/ s2c "design" = s2c "design") by (right; reflexivity).
  assert (H3 : s2c "AbC123" <> []) by discriminate.
  assert (H4 : forallb is_alnum (s2c "AbC123") = true) by reflexivity.
  assert (H5 : match s2c "/Title" with [] => True | y :: _ => is_alnum y = false end) by reflexivity.
  exact (conj H1 (conj H2 (conj H3 (conj H4 (conj H5
    (extractFigmaFileKey_roundtrip (s2c "https://www.") (s2c "design") (s2c "AbC123") (s2c "/Title") H1 H2 H3 H4 H5)))))).
Defined.

(** [extractNodeDimensions]: both returned dimensions are whole numbers. *)
Theorem extractNodeDimensions_whole (n : fnode) :
  exists zw zh : Z, extractNodeDimensions n = (inject_Z zw, inject_Z zh).
Proof.
  unfold extractNodeDimensions, js_round.
  destruct (f_bbox n); destruct (f_width n); destruct (f_height n);
    repeat destruct (Qeq_bool _ _); eexists; eexists; reflexivity.
Qed.
